(** * Signal bot: the signal store and the price monitor of [signal_bot.py]

    A shallow embedding of the data model ([Signal]), of [SignalStore] with its
    JSON persistence, of the [/addsignal] handler and of the monitoring loop
    [monitor_prices], followed by the properties of the specification that
    concern them.

    Conventions of the embedding.
    - Python [int] is [Z]; Python [float] is a binary64 primitive float, so
      that [price >= tgt] keeps its IEEE meaning (a comparison with NaN is
      false); [str] is [string], and the text helpers ([upper], [split], ...)
      are written for ASCII.
    - The module-level [STORE], the file at [SIGNALS_DB_PATH], the channel and
      the replies to the operator are the fields of one [World], threaded
      through a state-and-exception monad [M].  An exception leaves the world
      as it was when it was raised, as in Python.
    - A [Signal] is a value.  In Python the store holds references, and the
      monitor mutates the objects that [STORE.all()] returned; as long as every
      record is filed under its own id ([store_wf]), every object is reachable
      from exactly one key and the two readings agree.
    - [await] points are sequential steps: in [run_steps] a command handler
      runs between two monitoring cycles, not during one.  What a deletion
      handled during a cycle leads to is stated apart, on the body of the
      loop and the record it holds.
    - A request to TwelveData may fail in every way that [td_get_price]
      distinguishes.  A message posted to the channel and a reply to the
      operator are delivered; a reply to a card of the channel may be refused
      (the card may be gone), which is the failure that [notify_update]
      expects. *)

From Stdlib Require Import PrimFloat ZArith Ascii String DecimalString DecimalZ.
From stdpp Require Import gmap strings list fin_maps sorting.

Set Warnings "-register-all".
Local Open Scope string_scope.
Local Open Scope list_scope.
Local Open Scope Z_scope.

(** ** Exceptions and results *)

Inductive exn :=
  | ValueError      (* float(), int(), the explicit raise in addsignal_cmd *)
  | TypeError       (* the Signal constructor on a bad dict *)
  | AttributeError  (* .get / .items on something that is not a dict *)
  | ClientError     (* aiohttp: transport error, timeout, HTTP status *)
  | TelegramError.  (* Telegram refuses a message *)

Inductive result (A : Type) :=
  | Ok (a : A)
  | Raise (e : exn).
Arguments Ok {A} a.
Arguments Raise {A} e.

#[export] Instance result_ret : MRet result := λ A a, Ok a.
#[export] Instance result_bind : MBind result := λ A B k r,
  match r with
  | Ok a => k a
  | Raise e => Raise e
  end.

(** ** The data model *)

Record Signal := mkSignal {
  id : Z;
  chat_id : Z;
  message_id : option Z;
  symbol : string;
  side : string;
  entry : float;
  targets : list float;
  stop : option float;
  note : string;
  created_at : string;
  active : bool;
  hit_targets : list Z;
  provider : string
}.

Definition set_id (v : Z) (s : Signal) : Signal :=
  mkSignal v (chat_id s) (message_id s) (symbol s) (side s) (entry s)
    (targets s) (stop s) (note s) (created_at s) (active s) (hit_targets s)
    (provider s).

Definition set_message_id (v : option Z) (s : Signal) : Signal :=
  mkSignal (id s) (chat_id s) v (symbol s) (side s) (entry s)
    (targets s) (stop s) (note s) (created_at s) (active s) (hit_targets s)
    (provider s).

Definition set_active (v : bool) (s : Signal) : Signal :=
  mkSignal (id s) (chat_id s) (message_id s) (symbol s) (side s) (entry s)
    (targets s) (stop s) (note s) (created_at s) v (hit_targets s)
    (provider s).

Definition set_hit_targets (v : list Z) (s : Signal) : Signal :=
  mkSignal (id s) (chat_id s) (message_id s) (symbol s) (side s) (entry s)
    (targets s) (stop s) (note s) (created_at s) (active s) v
    (provider s).

(** ** Text helpers (ASCII) *)

Definition is_space (c : ascii) : bool :=
  let n := nat_of_ascii c in
  ((9 <=? n) && (n <=? 13) || (28 <=? n) && (n <=? 32))%nat.

Definition upper_char (c : ascii) : ascii :=
  let n := nat_of_ascii c in
  if ((97 <=? n) && (n <=? 122))%nat then ascii_of_nat (n - 32) else c.

Definition lower_char (c : ascii) : ascii :=
  let n := nat_of_ascii c in
  if ((65 <=? n) && (n <=? 90))%nat then ascii_of_nat (n + 32) else c.

Fixpoint map_string (f : ascii → ascii) (s : string) : string :=
  match s with
  | EmptyString => EmptyString
  | String c s' => String (f c) (map_string f s')
  end.

(** [s.upper()], [s.lower()] *)
Definition upper : string → string := map_string upper_char.
Definition lower : string → string := map_string lower_char.

Definition snoc (s : string) (c : ascii) : string := (s ++ String c EmptyString)%string.

(** [s.split()]: the maximal runs of characters that are not blank. *)
Fixpoint split_ws_from (cur : string) (s : string) : list string :=
  match s with
  | EmptyString => if String.eqb cur "" then [] else [cur]
  | String c s' =>
      if is_space c then
        if String.eqb cur "" then split_ws_from "" s'
        else cur :: split_ws_from "" s'
      else split_ws_from (snoc cur c) s'
  end.
Definition split_ws (s : string) : list string := split_ws_from "" s.

(** [s.split(sep)] for a separator of one character. *)
Fixpoint split_from (sep : ascii) (cur : string) (s : string) : list string :=
  match s with
  | EmptyString => [cur]
  | String c s' =>
      if Ascii.eqb c sep then cur :: split_from sep "" s'
      else split_from sep (snoc cur c) s'
  end.
Definition split (sep : ascii) (s : string) : list string := split_from sep "" s.

(** [s.partition(sep)] for a separator of one character: the text before the
    first [sep], whether [sep] was found, the text after it. *)
Fixpoint partition_from (sep : ascii) (cur : string) (s : string)
    : string * bool * string :=
  match s with
  | EmptyString => (cur, false, "")
  | String c s' =>
      if Ascii.eqb c sep then (cur, true, s')
      else partition_from sep (snoc cur c) s'
  end.
Definition partition (sep : ascii) (s : string) : string * bool * string :=
  partition_from sep "" s.

Fixpoint lstrip (s : string) : string :=
  match s with
  | EmptyString => EmptyString
  | String c s' => if is_space c then lstrip s' else s
  end.

Definition reverse_string (s : string) : string :=
  string_of_list_ascii (reverse (list_ascii_of_string s)).

(** [s.strip()] *)
Definition strip (s : string) : string :=
  reverse_string (lstrip (reverse_string (lstrip s))).

Definition is_digit (c : ascii) : bool :=
  let n := nat_of_ascii c in ((48 <=? n) && (n <=? 57))%nat.

Fixpoint all_digits (s : string) : bool :=
  match s with
  | EmptyString => true
  | String c s' => is_digit c && all_digits s'
  end.

(** [s.isdigit()] *)
Definition isdigit (s : string) : bool := negb (String.eqb s "") && all_digits s.

(** ** JSON documents

    The value tree that [json.dump] writes and [json.load] reads back.  An
    object is the list of its members; a repeated key keeps its last binding,
    as in the dict that [json.load] builds. *)

Inductive json :=
  | JNull
  | JBool (b : bool)
  | JInt (z : Z)
  | JFloat (f : float)
  | JStr (s : string)
  | JList (l : list json)
  | JObj (members : list (string * json)).

Fixpoint dict_get (k : string) (d : list (string * json)) : option json :=
  match d with
  | [] => None
  | (k', v) :: d' =>
      match dict_get k d' with
      | Some v' => Some v'
      | None => if String.eqb k k' then Some v else None
      end
  end.

(** [str(n)] for a dict key, and [int(k)] on the way back. *)
Definition str_of_int (n : Z) : string := NilZero.string_of_int (Z.to_int n).

(** The digits of a numeral of [int()]: digits, with single underscores
    between two of them.  [prev_digit] tells whether the character before was
    a digit. *)
Fixpoint numeral_digits (prev_digit : bool) (s : string) : option string :=
  match s with
  | EmptyString => if prev_digit then Some EmptyString else None
  | String c s' =>
      if is_digit c then
        match numeral_digits true s' with
        | Some r => Some (String c r)
        | None => None
        end
      else if Ascii.eqb c "_" then
        if prev_digit then numeral_digits false s' else None
      else None
  end.

(** [int(s)] on a string in ASCII: the blanks around the numeral are dropped,
    then come an optional sign and the digits.  Integers are unbounded; the
    limit that recent versions of CPython put on the number of digits (4300)
    is not modelled. *)
Definition int_of_str (s : string) : result Z :=
  let t := strip s in
  let signed := match t with
                | String "-" r => (true, r)
                | String "+" r => (false, r)
                | _ => (false, t)
                end in
  match numeral_digits false signed.2 with
  | Some ds =>
      match NilEmpty.uint_of_string ds with
      | Some d => Ok (if signed.1 then - Z.of_uint d else Z.of_uint d)
      | None => Raise ValueError
      end
  | None => Raise ValueError
  end.

Definition json_of_opt {A} (f : A → json) (o : option A) : json :=
  match o with
  | Some a => f a
  | None => JNull
  end.

(** [Signal.to_dict]: [asdict(self)], the fields in declaration order. *)
Definition to_dict (s : Signal) : json :=
  JObj [ ("id", JInt (id s));
         ("chat_id", JInt (chat_id s));
         ("message_id", json_of_opt JInt (message_id s));
         ("symbol", JStr (symbol s));
         ("side", JStr (side s));
         ("entry", JFloat (entry s));
         ("targets", JList (JFloat <$> targets s));
         ("stop", json_of_opt JFloat (stop s));
         ("note", JStr (note s));
         ("created_at", JStr (created_at s));
         ("active", JBool (active s));
         ("hit_targets", JList (JInt <$> hit_targets s));
         ("provider", JStr (provider s)) ].

Definition Signal_fields : list string :=
  [ "id"; "chat_id"; "message_id"; "symbol"; "side"; "entry"; "targets";
    "stop"; "note"; "created_at"; "active"; "hit_targets"; "provider" ].

(** Typed readers for the values of a parsed document.  The constructor call
    of [from_dict] itself checks no type; the readers raise [TypeError] where Python would build a
    record with a field of another type. *)
Definition as_int (j : json) : result Z :=
  match j with JInt z => Ok z | _ => Raise TypeError end.
Definition as_float (j : json) : result float :=
  match j with JFloat f => Ok f | _ => Raise TypeError end.
Definition as_str (j : json) : result string :=
  match j with JStr s => Ok s | _ => Raise TypeError end.
Definition as_bool (j : json) : result bool :=
  match j with JBool b => Ok b | _ => Raise TypeError end.
Definition as_opt {A} (f : json → result A) (j : json) : result (option A) :=
  match j with JNull => Ok None | _ => a ← f j; Ok (Some a) end.

Fixpoint as_items {A} (f : json → result A) (l : list json) : result (list A) :=
  match l with
  | [] => Ok []
  | j :: l' => a ← f j; r ← as_items f l'; Ok (a :: r)
  end.
Definition as_list {A} (f : json → result A) (j : json) : result (list A) :=
  match j with JList l => as_items f l | _ => Raise TypeError end.

(** A keyword argument of [Signal(...)]: the value given, or the field's
    default. *)
Definition field_or {A} (d : list (string * json)) (k : string)
    (f : json → result A) (dflt : A) : result A :=
  match dict_get k d with
  | Some j => f j
  | None => Ok dflt
  end.

Definition field_req {A} (d : list (string * json)) (k : string)
    (f : json → result A) : result A :=
  match dict_get k d with
  | Some j => f j
  | None => Raise TypeError
  end.

(** ** The store, the world and the monad *)

Record SignalStore := mkStore {
  _signals : gmap Z Signal;
  _next_id : Z
}.

(** What is sent to the channel.  [SignalPublished] is the card of
    [post_signal_to_channel].  [TargetHit] and [StopHit] are the alerts of
    the monitor, with the values that their texts render: each call of
    [notify_update] posts its alert once.  [Reply mid e] is the text of [e]
    sent a second time by the same call, as a reply to the message [mid]. *)
Inductive Event :=
  | SignalPublished (s : Signal)
  | TargetHit (s : Signal) (idx : Z) (tgt price : float)
  | StopHit (s : Signal) (stop_price price : float)
  | Reply (mid : Z) (e : Event).

Record World := mkWorld {
  STORE : SignalStore;        (* the module-level store *)
  disk : option json;         (* the file at SIGNALS_DB_PATH, if it exists *)
  channel : list Event;       (* sent to CHANNEL_ID, oldest first *)
  replies : list string;      (* reply_text to the operator, oldest first *)
  log : list exn;             (* logging.exception in the monitor *)
  fetches : nat               (* calls of td_get_price so far *)
}.

Definition M (A : Type) : Type := World → result A * World.

#[export] Instance M_ret : MRet M := λ A a w, (Ok a, w).
#[export] Instance M_bind : MBind M := λ A B k m w,
  match m w with
  | (Ok a, w') => k a w'
  | (Raise e, w') => (Raise e, w')
  end.

Definition raise {A} (e : exn) : M A := λ w, (Raise e, w).

(** [try: m except Exception as e: h e] *)
Definition try_except {A} (m : M A) (h : exn → M A) : M A := λ w,
  match m w with
  | (Ok a, w') => (Ok a, w')
  | (Raise e, w') => h e w'
  end.

Definition exec {A} (m : M A) (w : World) : World := (m w).2.
Definition eval {A} (m : M A) (w : World) : result A := (m w).1.

Definition get_store : M SignalStore := λ w, (Ok (STORE w), w).
Definition put_store (st : SignalStore) : M unit := λ w,
  (Ok (), mkWorld st (disk w) (channel w) (replies w) (log w) (fetches w)).
Definition write_file (doc : json) : M unit := λ w,
  (Ok (), mkWorld (STORE w) (Some doc) (channel w) (replies w) (log w) (fetches w)).
Definition send_message (e : Event) : M unit := λ w,
  (Ok (), mkWorld (STORE w) (disk w) (channel w ++ [e]) (replies w) (log w) (fetches w)).
Definition reply_text (t : string) : M unit := λ w,
  (Ok (), mkWorld (STORE w) (disk w) (channel w) (replies w ++ [t]) (log w) (fetches w)).
Definition logging_exception (e : exn) : M unit := λ w,
  (Ok (), mkWorld (STORE w) (disk w) (channel w) (replies w) (log w ++ [e]) (fetches w)).

(** ** SignalStore *)

(** [SignalStore.save]: the document, then the write. *)
Definition save_doc (st : SignalStore) : json :=
  JObj [ ("next_id", JInt (_next_id st));
         ("signals",
          JObj ((λ kv, (str_of_int kv.1, to_dict kv.2)) <$> map_to_list (_signals st))) ].

Definition save : M unit :=
  st ← get_store; write_file (save_doc st).

(** [SignalStore.add] *)
Definition add (s : Signal) : M Signal :=
  st ← get_store;
  let s := set_id (_next_id st) s in
  put_store (mkStore (<[id s := s]> (_signals st)) (_next_id st + 1));;
  save;;
  mret s.

(** [SignalStore.get] *)
Definition get (sid : Z) : M (option Signal) :=
  st ← get_store; mret (_signals st !! sid).

(** [SignalStore.delete] *)
Definition delete (sid : Z) : M bool :=
  st ← get_store;
  if bool_decide (is_Some (_signals st !! sid)) then
    put_store (mkStore (base.delete sid (_signals st)) (_next_id st));;
    save;;
    mret true
  else mret false.

(** [SignalStore.update] *)
Definition update (s : Signal) : M unit :=
  st ← get_store;
  put_store (mkStore (<[id s := s]> (_signals st)) (_next_id st));;
  save.

(** [SignalStore.all]: [sorted(values, key=lambda x: (not x.active, x.id))].
    [sorted] is stable; [insert_by_key] puts a record before the records it
    does not exceed, and the values are inserted from the last to the first.
    The order in which the dict yields its values only shows between records
    of equal key, that is of equal id. *)
Definition sort_key (s : Signal) : bool * Z := (negb (active s), id s).

Definition key_leb (k1 k2 : bool * Z) : bool :=
  match k1.1, k2.1 with
  | false, true => true
  | true, false => false
  | _, _ => k1.2 <=? k2.2
  end.

Fixpoint insert_by_key (s : Signal) (l : list Signal) : list Signal :=
  match l with
  | [] => [s]
  | s' :: l' =>
      if key_leb (sort_key s) (sort_key s') then s :: s' :: l'
      else s' :: insert_by_key s l'
  end.

Definition sorted_by_key (l : list Signal) : list Signal :=
  foldr insert_by_key [] l.

Definition all : M (list Signal) :=
  st ← get_store; mret (sorted_by_key ((map_to_list (_signals st)).*2)).

(** ** The environment

    What the process is given from outside: its configuration, the instant at
    which the module was imported, and the answers of the services it calls. *)
Inductive response :=
  | NoResponse                                  (* transport error or timeout *)
  | Response (status : Z) (body : option json). (* body: the JSON payload, if it parses *)

Record Env := mkEnv {
  CHANNEL_ID : Z;
  ADMIN_USER_IDS : gset Z;
  (* [datetime.now(timezone.utc).isoformat()] at the instant the body of
     [class Signal] is executed, that is when the module is imported *)
  import_time : string;
  (* the builtin [float] on a string *)
  float_of_str : string → result float;
  (* the builtin [float] on an int *)
  float_of_int : Z → result float;
  (* the answer of TwelveData to the n-th request of the process, which asks
     for the given symbol *)
  twelvedata : nat → string → response;
  (* the message id that Telegram gives to the n-th message of the channel *)
  telegram_message_id : nat → Z;
  (* whether Telegram accepts the n-th message of the channel as a reply to
     the message [mid]; it refuses when that message is gone *)
  reply_accepted : nat → Z → bool
}.

Section Model.
Context (E : Env).

(** The default of the field [created_at] is the value of the expression
    [datetime.now(timezone.utc).isoformat()] in the class body: it is
    evaluated once, when the class is defined. *)
Definition created_at_default : string := import_time E.

(** [Signal.from_dict]: [Signal] applied to the members of [d] as keyword
    arguments.  A key that is no field, or a missing [id] or [chat_id], is a
    [TypeError]; any other missing field takes its default. *)
Definition from_dict (j : json) : result Signal :=
  match j with
  | JObj d =>
      if forallb (λ kv : string * json, bool_decide (kv.1 ∈ Signal_fields)) d then
        v_id ← field_req d "id" as_int;
        v_chat_id ← field_req d "chat_id" as_int;
        v_message_id ← field_or d "message_id" (as_opt as_int) None;
        v_symbol ← field_or d "symbol" as_str "EUR/USD";
        v_side ← field_or d "side" as_str "LONG";
        v_entry ← field_or d "entry" as_float 0%float;
        v_targets ← field_or d "targets" (as_list as_float) [];
        v_stop ← field_or d "stop" (as_opt as_float) None;
        v_note ← field_or d "note" as_str "";
        v_created_at ← field_or d "created_at" as_str created_at_default;
        v_active ← field_or d "active" as_bool true;
        v_hit_targets ← field_or d "hit_targets" (as_list as_int) [];
        v_provider ← field_or d "provider" as_str "twelvedata";
        Ok (mkSignal v_id v_chat_id v_message_id v_symbol v_side v_entry
              v_targets v_stop v_note v_created_at v_active v_hit_targets
              v_provider)
      else Raise TypeError
  | _ => Raise TypeError
  end.

(** The dict comprehension of [SignalStore.load]. *)
Fixpoint load_items (kvs : list (string * json)) (m : gmap Z Signal)
    : result (gmap Z Signal) :=
  match kvs with
  | [] => Ok m
  | (k, v) :: rest =>
      sid ← int_of_str k;
      s ← from_dict v;
      load_items rest (<[sid := s]> m)
  end.

(** [SignalStore.load], on the store being constructed and the file. *)
Definition load (self : SignalStore) (file : option json) : result SignalStore :=
  match file with
  | None => Ok self
  | Some (JObj data) =>
      next ← field_or data "next_id" as_int 1;
      kvs ← match dict_get "signals" data with
            | None => Ok []
            | Some (JObj kvs) => Ok kvs
            | Some _ => Raise AttributeError
            end;
      m ← load_items kvs ∅;
      Ok (mkStore m next)
  | Some _ => Raise AttributeError
  end.

(** [SignalStore.__init__] *)
Definition SignalStore_init (file : option json) : result SignalStore :=
  load (mkStore ∅ 1) file.

(** The world right after the import of the module: [STORE] is built from
    the file. *)
Definition startup (file : option json) : result World :=
  st ← SignalStore_init file;
  Ok (mkWorld st file [] [] [] 0%nat).

End Model.

(** Sequences of store operations. *)
Inductive store_op :=
  | OpAdd (s : Signal)
  | OpUpdate (s : Signal)
  | OpDelete (sid : Z).

(** One operation; the result is the list of the ids that it assigned. *)
Definition run_op (o : store_op) : M (list Z) :=
  match o with
  | OpAdd s => s' ← add s; mret [id s']
  | OpUpdate s => update s;; mret []
  | OpDelete sid => delete sid;; mret []
  end.

Fixpoint run_ops (os : list store_op) : M (list Z) :=
  match os with
  | [] => mret []
  | o :: os' => a ← run_op o; b ← run_ops os'; mret (a ++ b)
  end.

(** ** The arguments of a command *)

(** [parse_kv_args]: the words [k=v] of the text; the word is cut at its
    first [=], which is [p.split("=", 1)] when the word has one. *)
Definition parse_kv_args (text : string) : gmap string string :=
  foldl (λ (kv : gmap string string) (p : string),
           match partition "=" p with
           | (k, true, v) => <[lower (strip k) := strip v]> kv
           | (_, false, _) => kv
           end)
        ∅ (split_ws text).

(** ** Telegram updates *)

Record Update := mkUpdate {
  effective_user : option Z;   (* the id of the sender, if there is one *)
  message : option string      (* the text of the message, if there is one *)
}.

Definition format_error_text : string :=
  ("Format error. Example:" ++ String "010" "" ++
   "/addsignal symbol=EUR/USD side=LONG entry=1.1050 targets=1.1100,1.1150 stop=1.1000 note=Breakout")%string.

Section Bot.
Context (E : Env).

(** [is_admin] *)
Definition is_admin (user_id : Z) : bool := bool_decide (user_id ∈ ADMIN_USER_IDS E).

(** ** The provider *)

(** [td_get_price]: one request; [raise_for_status], then the member
    [price] of the payload through [float].  The symbol is given to the
    environment as it is, the quoting in the URL is not modelled.  A payload
    that is no JSON, or no object, raises; which exception it is in Python
    depends on the payload, here it is [ValueError]. *)
Definition td_get_price (sym : string) : M float := λ w,
  let w' := mkWorld (STORE w) (disk w) (channel w) (replies w) (log w) (S (fetches w)) in
  match twelvedata E (fetches w) sym with
  | NoResponse => (Raise ClientError, w')
  | Response status body =>
      if 400 <=? status then (Raise ClientError, w')
      else match body with
           | Some (JObj data) =>
               match dict_get "price" data with
               | Some (JStr p) => (float_of_str E p, w')
               | Some (JFloat f) => (Ok f, w')
               | Some (JInt z) => (float_of_int E z, w')
               | Some (JBool b) => (Ok (if b then 1%float else 0%float), w')
               | Some _ => (Raise TypeError, w')
               | None => (Raise ValueError, w')
               end
           | _ => (Raise ValueError, w')
           end
  end.

(** ** The channel *)

(** The second [send_message] of [notify_update], with
    [reply_to_message_id]. *)
Definition send_reply (mid : Z) (e : Event) : M unit := λ w,
  if reply_accepted E (length (channel w)) mid then send_message (Reply mid e) w
  else (Raise TelegramError, w).

(** [notify_update]: the alert is posted to the channel; when the signal has
    a [message_id] that is not 0, the alert is sent once more as a reply to
    that message, and a failure of this second send is swallowed. *)
Definition notify_update (s : Signal) (e : Event) : M unit :=
  send_message e;;
  match message_id s with
  | Some mid =>
      if mid =? 0 then mret ()
      else try_except (send_reply mid e) (λ _, mret ())
  | None => mret ()
  end.

(** [post_signal_to_channel]: the card is sent, Telegram answers with the id
    of the message. *)
Definition post_signal_to_channel (s : Signal) : M Z := λ w,
  (Ok (telegram_message_id E (length (channel w))), (send_message (SignalPublished s) w).2).

(** ** The handler of [/addsignal] *)

Fixpoint floats (l : list string) : result (list float) :=
  match l with
  | [] => Ok []
  | x :: l' => f ← float_of_str E x; r ← floats l'; Ok (f :: r)
  end.

Record signal_args := mkArgs {
  arg_symbol : string;
  arg_side : string;
  arg_entry : float;
  arg_targets : list float;
  arg_stop : option float;
  arg_note : string
}.

(** The body of the [try] of [addsignal_cmd]. *)
Definition addsignal_args (kv : gmap string string) : result signal_args :=
  let v_symbol := upper (default "EUR/USD" (kv !! "symbol")) in
  let v_side := upper (default "LONG" (kv !! "side")) in
  v_entry ← match kv !! "entry" with
            | Some e => if String.eqb e "" then Ok 0%float else float_of_str E e
            | None => Ok 0%float
            end;
  v_targets ← floats (filter (λ x, x ≠ "") (split "," (default "" (kv !! "targets"))));
  v_stop ← match kv !! "stop" with
           | Some x => f ← float_of_str E x; Ok (Some f)
           | None => Ok None
           end;
  let v_note := default "" (kv !! "note") in
  if bool_decide (v_side ∈ ["LONG"; "SHORT"]) then
    Ok (mkArgs v_symbol v_side v_entry v_targets v_stop v_note)
  else Raise ValueError.

(** [addsignal_cmd] *)
Definition addsignal_cmd (u : Update) : M unit :=
  match effective_user u, message u with
  | Some uid, Some text =>
      if negb (is_admin uid) then reply_text "Access denied."
      else
        let args_text := (partition " " text).2 in
        let kv := parse_kv_args args_text in
        match addsignal_args kv with
        | Raise _ => reply_text format_error_text
        | Ok a =>
            let s := mkSignal 0 (CHANNEL_ID E) None (arg_symbol a) (arg_side a)
                       (arg_entry a) (arg_targets a) (arg_stop a) (arg_note a)
                       (created_at_default E) true [] "twelvedata" in
            s ← add s;
            mid ← post_signal_to_channel s;
            let s := set_message_id (Some mid) s in
            update s;;
            reply_text ("Signal #" ++ str_of_int (id s) ++ " created and posted to channel.")%string
        end
  | _, _ => mret ()
  end.

(** ** The price monitor *)

(** [enumerate(l)] *)
Definition enumerate {A} (l : list A) : list (Z * A) :=
  imap (λ i x, (Z.of_nat i, x)) l.

(** The loop over the targets of [s], for the price of this cycle.  The
    record is threaded through the loop: it is the object that the loop
    mutates. *)
Fixpoint targets_loop (price : float) (its : list (Z * float)) (s : Signal)
    : M Signal :=
  match its with
  | [] => mret s
  | (idx, tgt) :: rest =>
      if bool_decide (idx ∈ hit_targets s) then targets_loop price rest s
      else
        let hit := false in
        let hit := if String.eqb (side s) "LONG" && PrimFloat.leb tgt price then true else hit in
        let hit := if String.eqb (side s) "SHORT" && PrimFloat.leb price tgt then true else hit in
        if hit then
          let s := set_hit_targets (hit_targets s ++ [idx]) s in
          update s;;
          notify_update s (TargetHit s idx tgt price);;
          targets_loop price rest s
        else targets_loop price rest s
  end.

(** The stop-loss block. *)
Definition stop_loss (price : float) (s : Signal) : M Signal :=
  match stop s with
  | Some sl =>
      if active s then
        let stop_hit := false in
        let stop_hit := if String.eqb (side s) "LONG" && PrimFloat.leb price sl then true else stop_hit in
        let stop_hit := if String.eqb (side s) "SHORT" && PrimFloat.leb sl price then true else stop_hit in
        if stop_hit then
          let s := set_active false s in
          update s;;
          notify_update s (StopHit s sl price);;
          mret s
        else mret s
      else mret s
  | None => mret s
  end.

(** The body of [for s in STORE.all()]. *)
Definition monitor_signal (s : Signal) : M unit :=
  if negb (active s) then mret ()
  else
    price ← td_get_price (symbol s);
    s ← targets_loop price (enumerate (targets s)) s;
    stop_loss price s;;
    mret ().

Fixpoint for_each {A} (body : A → M unit) (l : list A) : M unit :=
  match l with
  | [] => mret ()
  | x :: l' => body x;; for_each body l'
  end.

(** One turn of the [while True] of [monitor_prices]: the [try] around the
    whole [for] loop, and its handler.  Both branches end with the same
    [asyncio.sleep], which changes nothing in the world. *)
Definition monitor_cycle : M unit :=
  try_except (l ← all; for_each monitor_signal l)
             (λ e, logging_exception e).

(** [monitor_prices], observed for [n] turns of its loop. *)
Fixpoint monitor_prices (n : nat) : M unit :=
  match n with
  | O => mret ()
  | S n' => monitor_cycle;; monitor_prices n'
  end.

End Bot.

(** ** The handlers of [/start], [/list] and [/delete] *)

Definition newline : string := String "010" "".

Definition welcome_text : string :=
  ("Welcome!" ++ newline ++
   "Add signal example:" ++ newline ++
   "/addsignal symbol=EUR/USD side=LONG entry=1.1050 targets=1.1100,1.1150 stop=1.1000 note=Breakout"
   ++ newline ++ newline ++
   "List: /list" ++ newline ++ "Delete: /delete 3")%string.

(** [sep.join(l)] *)
Fixpoint join (sep : string) (l : list string) : string :=
  match l with
  | [] => ""
  | [x] => x
  | x :: l' => (x ++ sep ++ join sep l')%string
  end.

Section Commands.
Context (E : Env).
(** The builtin [str] on a float. *)
Context (str_of_float : float → string).

(** [start_cmd].  The handler does not test [update.message] before it
    replies: without a message the attribute access fails. *)
Definition start_cmd (u : Update) : M unit :=
  match effective_user u with
  | None => mret ()
  | Some uid =>
      match message u with
      | None => raise AttributeError
      | Some _ =>
          if negb (is_admin E uid) then reply_text "Access denied."
          else reply_text welcome_text
      end
  end.

(** One line of [/list]. *)
Definition list_line (s : Signal) : string :=
  let status := if active s then "Active" else "Inactive" in
  ("#" ++ str_of_int (id s) ++ " | " ++ symbol s ++ " | " ++ side s
   ++ " | entry " ++ str_of_float (entry s)
   ++ " | SL " ++ match stop s with Some sl => str_of_float sl | None => "None" end
   ++ " | targets " ++ join "," (str_of_float <$> targets s)
   ++ " | " ++ status)%string.

(** [list_cmd] *)
Definition list_cmd (u : Update) : M unit :=
  match effective_user u, message u with
  | Some uid, Some _ =>
      if negb (is_admin E uid) then reply_text "Access denied."
      else
        items ← all;
        match items with
        | [] => reply_text "No signals yet."
        | _ => reply_text (join newline (list_line <$> items))
        end
  | _, _ => mret ()
  end.

(** [delete_cmd] *)
Definition delete_cmd (u : Update) : M unit :=
  match effective_user u, message u with
  | Some uid, Some text =>
      if negb (is_admin E uid) then reply_text "Access denied."
      else
        match split_ws text with
        | _ :: arg :: _ =>
            if negb (isdigit arg) then reply_text "Usage: /delete <id>"
            else
              match int_of_str arg with
              | Raise e => raise e
              | Ok sid =>
                  ok ← delete sid;
                  reply_text (if ok : bool then "Deleted." else "Not found.")
              end
        | _ => reply_text "Usage: /delete <id>"
        end
  | _, _ => mret ()
  end.

(** ** The process at work

    What happens to the world, one step at a time: a turn of the monitor's
    loop, or an update dispatched to its handler.  The dispatcher of the
    Telegram library logs the exception of a handler and goes on. *)
Inductive step :=
  | Cycle
  | StartCmd (u : Update)
  | AddSignalCmd (u : Update)
  | ListCmd (u : Update)
  | DeleteCmd (u : Update).

Definition dispatch (h : M unit) : M unit :=
  try_except h (λ e, logging_exception e).

Definition run_step (st : step) : M unit :=
  match st with
  | Cycle => monitor_cycle E
  | StartCmd u => dispatch (start_cmd u)
  | AddSignalCmd u => dispatch (addsignal_cmd E u)
  | ListCmd u => dispatch (list_cmd u)
  | DeleteCmd u => dispatch (delete_cmd u)
  end.

Definition run_steps (sts : list step) : M unit := for_each run_step sts.

End Commands.

(** ** What the monitor is observed to do *)

(** The indices announced by "Target Hit" alerts about signal [sid], and the
    stop and price of the "Stop Loss" alerts about it, in the order sent. *)
Definition hit_indices (sid : Z) (evs : list Event) : list Z :=
  omap (λ e, match e with
             | TargetHit s idx _ _ => if bool_decide (id s = sid) then Some idx else None
             | _ => None
             end) evs.

Definition stop_alerts (sid : Z) (evs : list Event) : list (float * float) :=
  omap (λ e, match e with
             | StopHit s sl p => if bool_decide (id s = sid) then Some (sl, p) else None
             | _ => None
             end) evs.

(** The same for the replies to the card: the indices and the stops of the
    alerts about signal [sid] that were sent a second time, as a reply. *)
Definition hit_replies (sid : Z) (evs : list Event) : list Z :=
  omap (λ e, match e with
             | Reply _ (TargetHit s idx _ _) =>
                 if bool_decide (id s = sid) then Some idx else None
             | _ => None
             end) evs.

Definition stop_replies (sid : Z) (evs : list Event) : list (float * float) :=
  omap (λ e, match e with
             | Reply _ (StopHit s sl p) =>
                 if bool_decide (id s = sid) then Some (sl, p) else None
             | _ => None
             end) evs.

(** What was sent to the channel between [w] and a later [w']. *)
Definition new_events (w w' : World) : list Event :=
  drop (length (channel w)) (channel w').

(** Every record is filed under its own id.  [add] and [update] file a record
    under [s.id], so the stores that the program builds are of this kind. *)
Definition store_wf (w : World) : Prop :=
  ∀ k s, _signals (STORE w) !! k = Some s → id s = k.

(** ** Summaries of the monitor's loops

    The two loops over one signal, as functions from the signal to its final
    state and to the alerts sent; [commit] is their effect on the world. *)

Definition crosses_target (sd : string) (price tgt : float) : bool :=
  String.eqb sd "LONG" && PrimFloat.leb tgt price
  || String.eqb sd "SHORT" && PrimFloat.leb price tgt.

Definition crosses_stop (sd : string) (price sl : float) : bool :=
  String.eqb sd "LONG" && PrimFloat.leb price sl
  || String.eqb sd "SHORT" && PrimFloat.leb sl price.

Fixpoint targets_summary (price : float) (its : list (Z * float)) (s : Signal)
    : Signal * list Event :=
  match its with
  | [] => (s, [])
  | (idx, tgt) :: rest =>
      if bool_decide (idx ∈ hit_targets s) then targets_summary price rest s
      else if crosses_target (side s) price tgt then
        let s1 := set_hit_targets (hit_targets s ++ [idx]) s in
        let r := targets_summary price rest s1 in
        (r.1, TargetHit s1 idx tgt price :: r.2)
      else targets_summary price rest s
  end.

Definition stop_summary (price : float) (s : Signal) : Signal * list Event :=
  match stop s with
  | Some sl =>
      if active s && crosses_stop (side s) price sl then
        (set_active false s, [StopHit (set_active false s) sl price])
      else (s, [])
  | None => (s, [])
  end.

Definition evaluate (price : float) (s : Signal) : Signal * list Event :=
  let r1 := targets_summary price (enumerate (targets s)) s in
  let r2 := stop_summary price r1.1 in
  (r2.1, r1.2 ++ r2.2).

(** The signal that an alert is about carries the [message_id] that
    [notify_update] reads. *)
Definition event_message_id (e : Event) : option Z :=
  match e with
  | SignalPublished s | TargetHit s _ _ _ | StopHit s _ _ => message_id s
  | Reply _ _ => None
  end.

(** What one call of [notify_update] adds to a channel of [n] messages: the
    alert, and its copy as a reply when the signal has a message id and
    Telegram accepts the reply. *)
Definition posted (E : Env) (e : Event) (n : nat) : list Event :=
  e :: match event_message_id e with
       | Some mid =>
           if negb (mid =? 0) && reply_accepted E (S n) mid then [Reply mid e] else []
       | None => []
       end.

(** The same for the alerts of one signal, in their order. *)
Fixpoint delivered (E : Env) (evs : list Event) (n : nat) : list Event :=
  match evs with
  | [] => []
  | e :: rest => posted E e n ++ delivered E rest (n + length (posted E e n))
  end.

(** One more request was made. *)
Definition tick (w : World) : World :=
  mkWorld (STORE w) (disk w) (channel w) (replies w) (log w) (S (fetches w)).

(** The record was stored and saved, and the alerts were sent; nothing
    happens when there is no alert. *)
Definition commit (E : Env) (s : Signal) (evs : list Event) (w : World) : World :=
  match evs with
  | [] => w
  | _ =>
      let st := mkStore (<[id s := s]> (_signals (STORE w))) (_next_id (STORE w)) in
      mkWorld st (Some (save_doc st))
        (channel w ++ delivered E evs (length (channel w))) (replies w) (log w) (fetches w)
  end.

(** The handler of the monitor logged [e]. *)
Definition logged (e : exn) (w : World) : World :=
  mkWorld (STORE w) (disk w) (channel w) (replies w) (log w ++ [e]) (fetches w).

(** The operator was told of a format error, and nothing else happened. *)
Definition rejected (w : World) : World :=
  mkWorld (STORE w) (disk w) (channel w) (replies w ++ [format_error_text])
    (log w) (fetches w).

(** ** How a signal and the world evolve under the monitor *)

(** Every field but [active] and [hit_targets] is the same. *)
Definition same_static (s s' : Signal) : Prop :=
  set_active (active s) (set_hit_targets (hit_targets s) s') = s.

(** [s] became [s'] while the target alerts [his] and the stop alerts [sts]
    were sent about it. *)
Record sig_rel (s s' : Signal) (his : list Z) (sts : list (float * float)) : Prop := {
  sr_static : same_static s s';
  sr_hits : hit_targets s' = hit_targets s ++ his;
  sr_nodup : NoDup his;
  sr_fresh : ∀ i, i ∈ his → i ∉ hit_targets s;
  sr_inactive : active s = false → s' = s ∧ his = [];
  sr_stops : length sts = if active s && negb (active s') then 1%nat else 0%nat
}.

Definition world_rel (w w' : World) : Prop :=
  channel w' = channel w ++ new_events w w' ∧
  _next_id (STORE w') = _next_id (STORE w) ∧
  replies w' = replies w ∧
  ∀ sid,
    match _signals (STORE w) !! sid with
    | Some s => ∃ s', _signals (STORE w') !! sid = Some s' ∧
                      sig_rel s s' (hit_indices sid (new_events w w'))
                                   (stop_alerts sid (new_events w w'))
    | None => _signals (STORE w') !! sid = None ∧
              hit_indices sid (new_events w w') = [] ∧
              stop_alerts sid (new_events w w') = []
    end.

(** The signals whose id is not in [keys] were left alone. *)
Definition frame (keys : list Z) (w w' : World) : Prop :=
  ∀ k, k ∉ keys →
    _signals (STORE w') !! k = _signals (STORE w) !! k ∧
    hit_indices k (new_events w w') = [] ∧
    stop_alerts k (new_events w w') = [].

(** ** Further notions used in the properties *)

(** [a] may stand before [b] in the list of [all]: an active record before an
    inactive one, and otherwise the smaller id first. *)
Definition listed_before (a b : Signal) : Prop :=
  (active a = true ∧ active b = false) ∨ (active a = active b ∧ id a ≤ id b).

(** An alert of the monitor that says what is the case: the target announced
    is the target of that index, the index is recorded as hit, and the price
    had crossed it; the stop announced is the stop of the signal, which is
    now inactive, and the price had crossed it; a reply is the copy of such
    an alert. *)
Fixpoint alert_justified (e : Event) : Prop :=
  match e with
  | Reply _ e' => alert_justified e'
  | SignalPublished _ => False
  | TargetHit s idx tgt price =>
      (∃ i : nat, idx = Z.of_nat i ∧ targets s !! i = Some tgt) ∧
      idx ∈ hit_targets s ∧ active s = true ∧
      ((side s = "LONG" ∧ PrimFloat.leb tgt price = true) ∨
       (side s = "SHORT" ∧ PrimFloat.leb price tgt = true))
  | StopHit s sl price =>
      stop s = Some sl ∧ active s = false ∧
      ((side s = "LONG" ∧ PrimFloat.leb price sl = true) ∨
       (side s = "SHORT" ∧ PrimFloat.leb sl price = true))
  end.

(** An alert as the monitor gives it to [notify_update]. *)
Definition is_alert (e : Event) : Prop :=
  match e with
  | TargetHit _ _ _ _ | StopHit _ _ _ => True
  | _ => False
  end.

(** The replies to cards are copies of alerts that were posted: for every
    signal, the replies are among its alerts, in their order, each at most as
    often as the alert. *)
Definition replies_paired (evs : list Event) : Prop :=
  ∀ sid, hit_replies sid evs `sublist_of` hit_indices sid evs ∧
         stop_replies sid evs `sublist_of` stop_alerts sid evs.

(** Between [w] and [w'] the channel received messages of which [Q] holds. *)
Definition sends (Q : list Event → Prop) (w w' : World) : Prop :=
  ∃ evs, channel w' = channel w ++ evs ∧ Q evs.

(** The same process with another feed of prices. *)
Definition with_feed (feed : nat → string → response) (E : Env) : Env :=
  mkEnv (CHANNEL_ID E) (ADMIN_USER_IDS E) (import_time E) (float_of_str E)
    (float_of_int E) feed (telegram_message_id E) (reply_accepted E).

(** The operator was told [t], and nothing else happened. *)
Definition replied (t : string) (w : World) : World :=
  mkWorld (STORE w) (disk w) (channel w) (replies w ++ [t]) (log w) (fetches w).

Definition denied (w : World) : World := replied "Access denied." w.

(** Every id in use is below the counter. *)
Definition ids_below_next (w : World) : Prop :=
  ∀ k, is_Some (_signals (STORE w) !! k) → k < _next_id (STORE w).

(** The file holds the store; or there is no file yet and the store is the
    one that [SignalStore] builds without a file. *)
Definition persisted (w : World) : Prop :=
  disk w = Some (save_doc (STORE w)) ∨ (disk w = None ∧ STORE w = mkStore ∅ 1).

Definition sound (w : World) : Prop :=
  store_wf w ∧ ids_below_next w ∧ persisted w.

(** What may have become of the records of [w] in a later world [w']: the
    counter did not decrease, a free id below it is still free, and a record
    is gone or has the same fields apart from a longer [hit_targets] and a
    cleared [active]. *)
Definition history_rel (w w' : World) : Prop :=
  _next_id (STORE w) ≤ _next_id (STORE w') ∧
  (∀ sid, sid < _next_id (STORE w) → _signals (STORE w) !! sid = None →
     _signals (STORE w') !! sid = None) ∧
  (∀ sid s, _signals (STORE w) !! sid = Some s →
     _signals (STORE w') !! sid = None ∨
     ∃ s', _signals (STORE w') !! sid = Some s' ∧
           same_static s s' ∧
           hit_targets s `prefix_of` hit_targets s' ∧
           (active s = false → s' = s)).

Fixpoint forall_chars (p : ascii → bool) (s : string) : bool :=
  match s with
  | EmptyString => true
  | String c s' => p c && forall_chars p s'
  end.

(** No blank in [s]; no [=] in [s]. *)
Definition no_blank (s : string) : bool := forall_chars (λ c, negb (is_space c)) s.
Definition no_equals (s : string) : bool := forall_chars (λ c, negb (Ascii.eqb c "=")) s.

(** The texts on which the text helpers are those of Python.  On a character
    beyond ASCII, [str.isdigit], [str.split], [str.upper] and [str.lower]
    read more than the helpers do: a superscript two is a digit for
    [isdigit], and [int] refuses it. *)
Definition is_ascii (s : string) : bool :=
  forall_chars (λ c, (nat_of_ascii c <? 128)%nat) s.

(** The text of a Telegram message: at most 4096 characters, below the 4300
    digits from which [int] refuses a numeral. *)
Definition plain_text (s : string) : Prop :=
  is_ascii s = true ∧ Z.of_nat (String.length s) ≤ 4096.

(** ** Sample data *)

Set Warnings "-inexact-float".

(** A feed that answers the n-th request with the n-th element of the list,
    and does not answer once the list is exhausted. *)
Definition feed_of (answers : list response) : nat → string → response :=
  λ n _, default NoResponse (answers !! n).

Definition quote_of (p : string) : response :=
  Response 200 (Some (JObj [("price", JStr p)])).

(** [float] on the few numerals that the samples use. *)
Definition sample_float (x : string) : result float :=
  if String.eqb x "1.09" then Ok 1.09%float
  else if String.eqb x "1.11" then Ok 1.11%float
  else if String.eqb x "1.13" then Ok 1.13%float
  else if String.eqb x "1.21" then Ok 1.21%float
  else if String.eqb x "1.25" then Ok 1.25%float
  else Raise ValueError.

(** A process imported at [t0], with the given feed. *)
Definition sample_env_at (t0 : string) (answers : list response) : Env :=
  mkEnv (-1002733217001) {[ 8121424156 ]} t0
    sample_float (λ _, Raise ValueError) (feed_of answers) (λ n, 500 + Z.of_nat n)
    (λ _ _, true).

Definition sample_env (answers : list response) : Env :=
  sample_env_at "2024-05-01T09:00:00+00:00" answers.

Definition long_signal : Signal :=
  mkSignal 1 (-1002733217001) None "EUR/USD" "LONG" 1.05 [1.10; 1.12]%float None ""
    "2024-05-01T09:00:00+00:00" true [] "twelvedata".

Definition short_signal : Signal :=
  mkSignal 2 (-1002733217001) None "GBP/USD" "SHORT" 1.15 [1.10]%float (Some 1.20%float) ""
    "2024-05-01T09:00:00+00:00" true [] "twelvedata".

Definition sample_world : World :=
  mkWorld (mkStore (<[1 := long_signal]> (<[2 := short_signal]> ∅)) 3) None [] [] [] 0.

(** The same two signals once their cards are in the channel, as the
    handler of [/addsignal] leaves them. *)
Definition carded_long : Signal := set_message_id (Some 500) long_signal.
Definition carded_short : Signal := set_message_id (Some 501) short_signal.

Definition carded_world : World :=
  mkWorld (mkStore (<[1 := carded_long]> (<[2 := carded_short]> ∅)) 3) None
    [SignalPublished long_signal; SignalPublished short_signal] [] [] 0.

Definition admin_says (text : string) : Update :=
  mkUpdate (Some 8121424156) (Some text).

(** The world of a process that found no file at [SIGNALS_DB_PATH]. *)
Definition fresh_world : World :=
  mkWorld (mkStore ∅ 1) None [] [] [] 0.

(** [str] on a float, for the samples: a stand-in, the digits are not
    modelled. *)
Definition sample_str_of_float (f : float) : string :=
  if PrimFloat.eqb f 0 then "0.0" else "<float>".

(** A store with two signals, built by two additions. *)
Definition stored_world : World :=
  exec (run_ops [OpAdd long_signal; OpAdd short_signal]) fresh_world.

(** Somebody who is no administrator. *)
Definition stranger_says (text : string) : Update :=
  mkUpdate (Some 42) (Some text).

(** * Properties *)

Section Proofs.
Context (E : Env).

(** ** The monad *)

Lemma bind_ok {A B} (m : M A) (k : A → M B) w a w' :
  m w = (Ok a, w') → (m ≫= k) w = k a w'.
Proof. unfold mbind, M_bind. by intros ->. Qed.

Lemma bind_raise {A B} (m : M A) (k : A → M B) w e w' :
  m w = (Raise e, w') → (m ≫= k) w = (Raise e, w').
Proof. unfold mbind, M_bind. by intros ->. Qed.

(** ** The store operations, run *)

Lemma add_run s w :
  add s w =
    (Ok (set_id (_next_id (STORE w)) s),
     let st := mkStore (<[_next_id (STORE w) := set_id (_next_id (STORE w)) s]>
                          (_signals (STORE w)))
                       (_next_id (STORE w) + 1) in
     mkWorld st (Some (save_doc st)) (channel w) (replies w) (log w) (fetches w)).
Proof. reflexivity. Qed.

Lemma update_run s w :
  update s w =
    (Ok (),
     let st := mkStore (<[id s := s]> (_signals (STORE w))) (_next_id (STORE w)) in
     mkWorld st (Some (save_doc st)) (channel w) (replies w) (log w) (fetches w)).
Proof. reflexivity. Qed.

Lemma delete_run_absent sid w :
  _signals (STORE w) !! sid = None → delete sid w = (Ok false, w).
Proof.
  intros H. unfold delete, get_store, mbind, M_bind.
  rewrite bool_decide_eq_false_2; [done|]. rewrite H. by intros [? ?].
Qed.

Lemma delete_run_present sid w :
  is_Some (_signals (STORE w) !! sid) →
  delete sid w =
    (Ok true,
     let st := mkStore (base.delete sid (_signals (STORE w))) (_next_id (STORE w)) in
     mkWorld st (Some (save_doc st)) (channel w) (replies w) (log w) (fetches w)).
Proof.
  intros H. unfold delete, get_store, mbind, M_bind.
  rewrite bool_decide_eq_true_2; done.
Qed.

Lemma run_op_spec o w :
  ∃ a w1, run_op o w = (Ok a, w1) ∧
    ((a = [_next_id (STORE w)] ∧ _next_id (STORE w1) = _next_id (STORE w) + 1) ∨
     (a = [] ∧ _next_id (STORE w1) = _next_id (STORE w))).
Proof.
  destruct o as [s|s|sid].
  - eexists _, _. split; [reflexivity|]. by left.
  - eexists _, _. split; [reflexivity|]. by right.
  - destruct (_signals (STORE w) !! sid) eqn:H.
    + eexists _, _. split.
      * unfold run_op. erewrite bind_ok; [reflexivity|].
        apply delete_run_present. by rewrite H.
      * by right.
    + eexists _, _. split.
      * unfold run_op. erewrite bind_ok; [reflexivity|].
        by apply delete_run_absent.
      * by right.
Qed.

Lemma run_ops_spec ops w :
  ∃ ids w', run_ops ops w = (Ok ids, w') ∧
    StronglySorted Z.lt ids ∧
    Forall (λ i, _next_id (STORE w) ≤ i < _next_id (STORE w')) ids ∧
    _next_id (STORE w) ≤ _next_id (STORE w').
Proof.
  revert w. induction ops as [|o ops IH]; intros w.
  - exists [], w. repeat split; [constructor|constructor|lia].
  - destruct (run_op_spec o w) as (a & w1 & Ha & Hcase).
    destruct (IH w1) as (b & w2 & Hb & Hsort & Hall & Hle).
    exists (a ++ b), w2. split.
    { cbn [run_ops]. erewrite bind_ok by exact Ha. by erewrite bind_ok by exact Hb. }
    destruct Hcase as [[-> Hn]|[-> Hn]]; simpl.
    + split; [|split; [|lia]].
      * constructor; [done|]. eapply Forall_impl; [exact Hall|]. simpl. intros; lia.
      * constructor; [lia|]. eapply Forall_impl; [exact Hall|]. simpl. intros; lia.
    + split; [done|]. split; [|lia].
      eapply Forall_impl; [exact Hall|]. simpl. intros; lia.
Qed.

(** ** Text: words without blanks, numerals *)

Lemma forall_chars_list p s : forall_chars p s = forallb p (list_ascii_of_string s).
Proof. induction s as [|c s IH]; [done|]. simpl. by rewrite IH. Qed.

Lemma reverse_string_involutive s : reverse_string (reverse_string s) = s.
Proof.
  unfold reverse_string.
  by rewrite list_ascii_of_string_of_list_ascii, reverse_involutive,
    string_of_list_ascii_of_string.
Qed.

Lemma no_blank_reverse s : no_blank s = true → no_blank (reverse_string s) = true.
Proof.
  unfold no_blank, reverse_string. rewrite !forall_chars_list.
  rewrite list_ascii_of_string_of_list_ascii.
  rewrite !forallb_forall. intros H c Hc. apply H.
  apply list_elem_of_In. apply list_elem_of_In in Hc. by rewrite elem_of_reverse in Hc.
Qed.

Lemma lstrip_word s : no_blank s = true → lstrip s = s.
Proof.
  destruct s as [|c s]; [done|]. simpl. intros [Hc _]%andb_true_iff.
  apply negb_true_iff in Hc. by rewrite Hc.
Qed.

Lemma strip_word s : no_blank s = true → strip s = s.
Proof.
  intros H. unfold strip. rewrite (lstrip_word s H).
  rewrite (lstrip_word _ (no_blank_reverse s H)). apply reverse_string_involutive.
Qed.

Lemma is_digit_char c d :
  is_digit c = true → ∃ d', uint_of_char c (Some d) = Some d' ∧ Ascii.eqb c "-" = false.
Proof.
  destruct c as [[|] [|] [|] [|] [|] [|] [|] [|]]; try discriminate;
    intros _; eexists; split; reflexivity.
Qed.

Lemma all_digits_uint s :
  all_digits s = true → ∃ d, NilEmpty.uint_of_string s = Some d.
Proof.
  induction s as [|c s IH]; simpl; [by eexists|].
  intros [Hc Hs]%andb_true_iff. destruct (IH Hs) as [d ->].
  destruct (is_digit_char c d Hc) as (d' & -> & _). by eexists.
Qed.

Lemma all_digits_string_of_uint d : all_digits (NilEmpty.string_of_uint d) = true.
Proof. induction d; simpl; try done; by rewrite IHd. Qed.

Lemma is_digit_plain c :
  is_digit c = true →
  is_space c = false ∧ Ascii.eqb c "-" = false ∧ Ascii.eqb c "+" = false ∧
  Ascii.eqb c "_" = false.
Proof. destruct c as [[|] [|] [|] [|] [|] [|] [|] [|]]; try discriminate; done. Qed.

Lemma all_digits_no_blank s : all_digits s = true → no_blank s = true.
Proof.
  induction s as [|c s IH]; [done|]. simpl. intros [Hc Hs]%andb_true_iff.
  unfold no_blank in *. cbn [forall_chars].
  destruct (is_digit_plain c Hc) as (-> & _). by rewrite IH.
Qed.

Lemma numeral_digits_all s : all_digits s = true → numeral_digits true s = Some s.
Proof.
  induction s as [|c s IH]; [done|]. simpl. intros [Hc Hs]%andb_true_iff.
  by rewrite Hc, IH.
Qed.

Lemma numeral_digits_first c s :
  all_digits (String c s) = true → numeral_digits false (String c s) = Some (String c s).
Proof.
  simpl. intros [Hc Hs]%andb_true_iff. by rewrite Hc, numeral_digits_all.
Qed.

Lemma int_of_str_digits c s :
  all_digits (String c s) = true →
  ∃ d, NilEmpty.uint_of_string (String c s) = Some d ∧
       int_of_str (String c s) = Ok (Z.of_uint d).
Proof.
  intros Hd. destruct (all_digits_uint _ Hd) as [d Hu]. exists d. split; [done|].
  unfold int_of_str. rewrite (strip_word _ (all_digits_no_blank _ Hd)).
  pose proof Hd as Hd'. simpl in Hd'. apply andb_true_iff in Hd' as [Hc _].
  destruct (is_digit_plain c Hc) as (_ & Hm & Hp & _).
  assert (match String c s with
          | String "-" r => (true, r)
          | String "+" r => (false, r)
          | _ => (false, String c s)
          end = (false, String c s)) as ->.
  { apply Ascii.eqb_neq in Hm, Hp.
    destruct c as [[|] [|] [|] [|] [|] [|] [|] [|]]; done. }
  cbn [fst snd]. by rewrite (numeral_digits_first _ _ Hd), Hu.
Qed.

Lemma string_of_uint_pos p :
  NilZero.string_of_uint (Pos.to_uint p) = NilEmpty.string_of_uint (Pos.to_uint p) ∧
  NilEmpty.string_of_uint (Pos.to_uint p) ≠ "" ∧
  Z.of_uint (Pos.to_uint p) = Z.pos p.
Proof.
  pose proof (DecimalPos.Unsigned.to_uint_nonnil p) as Hnil.
  split; [|split].
  - unfold NilZero.string_of_uint. by destruct (Pos.to_uint p).
  - by destruct (Pos.to_uint p).
  - unfold Z.of_uint. by rewrite DecimalPos.Unsigned.of_to.
Qed.

Lemma int_of_str_of_int (n : Z) : int_of_str (str_of_int n) = Ok n.
Proof.
  unfold str_of_int. destruct n as [|p|p]; [done| |].
  - cbn [Z.to_int NilZero.string_of_int].
    destruct (string_of_uint_pos p) as (-> & Hne & Hz).
    pose proof (all_digits_string_of_uint (Pos.to_uint p)) as Hd.
    pose proof (NilEmpty.usu (Pos.to_uint p)) as Hu.
    destruct (NilEmpty.string_of_uint (Pos.to_uint p)) as [|c s]; [done|].
    destruct (int_of_str_digits _ _ Hd) as (d & Hu' & ->).
    rewrite Hu in Hu'. injection Hu' as <-. by rewrite Hz.
  - cbn [Z.to_int NilZero.string_of_int].
    destruct (string_of_uint_pos p) as (-> & Hne & Hz).
    pose proof (all_digits_string_of_uint (Pos.to_uint p)) as Hd.
    pose proof (NilEmpty.usu (Pos.to_uint p)) as Hu.
    destruct (NilEmpty.string_of_uint (Pos.to_uint p)) as [|c s] eqn:Hds; [done|].
    unfold int_of_str.
    rewrite (strip_word (String "-" (String c s))) by
      (unfold no_blank; cbn [forall_chars negb is_space andb];
       exact (all_digits_no_blank _ Hd)).
    cbn [fst snd]. rewrite (numeral_digits_first _ _ Hd), Hu, Hz. done.
Qed.

Lemma isdigit_int_of_str s :
  isdigit s = true → ∃ n, int_of_str s = Ok n ∧ 0 ≤ n.
Proof.
  unfold isdigit. intros [Hne Hd]%andb_true_iff.
  destruct s as [|c s]; [done|].
  destruct (int_of_str_digits _ _ Hd) as (d & _ & ->).
  eexists. split; [done|]. unfold Z.of_uint. apply N2Z.is_nonneg.
Qed.

(** ** Persistence: what [save] writes, [load] reads back *)

Lemma as_items_floats (l : list float) : as_items as_float (JFloat <$> l) = Ok l.
Proof. induction l as [|f l IH]; [done|]. csimpl. by rewrite IH. Qed.

Lemma as_items_ints (l : list Z) : as_items as_int (JInt <$> l) = Ok l.
Proof. induction l as [|f l IH]; [done|]. csimpl. by rewrite IH. Qed.

Lemma from_dict_to_dict (s : Signal) : from_dict E (to_dict s) = Ok s.
Proof.
  destruct s as [i c m sy sd en tg st nt cr ac ht pr].
  unfold from_dict, to_dict.
  replace (forallb _ _) with true by (symmetry; vm_compute; reflexivity).
  cbn -[as_items].
  destruct m, st; cbn -[as_items]; rewrite ?as_items_floats, ?as_items_ints; reflexivity.
Qed.

Lemma load_items_saved (l : list (Z * Signal)) (acc : gmap Z Signal) :
  load_items E ((λ kv, (str_of_int kv.1, to_dict kv.2)) <$> l) acc
  = Ok (foldl (λ m kv, <[kv.1 := kv.2]> m) acc l).
Proof.
  revert acc. induction l as [|[k s] l IH]; intros acc; [done|].
  cbn [fmap list_fmap load_items fst snd foldl].
  rewrite int_of_str_of_int, from_dict_to_dict. cbn. apply IH.
Qed.

Lemma foldl_as_foldr {A B} (f : B → A → B) (l : list A) (b : B) :
  foldl f b l = foldr (λ x y, f y x) b (reverse l).
Proof.
  revert b. induction l as [|x l IH]; intros b; [done|].
  rewrite reverse_cons, foldr_app. simpl. apply IH.
Qed.

Lemma foldl_insert_map_to_list (m : gmap Z Signal) :
  foldl (λ m kv, <[kv.1 := kv.2]> m) ∅ (map_to_list m) = m.
Proof.
  rewrite <-(list_to_map_to_list m) at 2.
  rewrite (list_to_map_proper (map_to_list m) (reverse (map_to_list m))).
  - unfold list_to_map. by rewrite foldl_as_foldr.
  - apply NoDup_fst_map_to_list.
  - symmetry. apply reverse_Permutation.
Qed.

Lemma load_save_doc (st : SignalStore) :
  SignalStore_init E (Some (save_doc st)) = Ok st.
Proof.
  destruct st as [m n]. unfold SignalStore_init, load, save_doc.
  cbn -[load_items map_to_list].
  rewrite load_items_saved, foldl_insert_map_to_list. reflexivity.
Qed.

(** ** The loops over one signal, run *)

Lemma targets_summary_id price its s : id (targets_summary price its s).1 = id s.
Proof.
  revert s. induction its as [|[idx tgt] rest IH]; intros s; [done|].
  cbn [targets_summary]. repeat case_match; cbn [fst]; rewrite ?IH; done.
Qed.

Lemma targets_summary_nil price its s :
  (targets_summary price its s).2 = [] → (targets_summary price its s).1 = s.
Proof.
  revert s. induction its as [|[idx tgt] rest IH]; intros s; [done|].
  simpl. repeat case_match; simpl; auto; discriminate.
Qed.

Lemma stop_summary_id price s : id (stop_summary price s).1 = id s.
Proof. unfold stop_summary. repeat case_match; done. Qed.

Lemma stop_summary_nil price s :
  (stop_summary price s).2 = [] → (stop_summary price s).1 = s.
Proof. unfold stop_summary. repeat case_match; done. Qed.

Lemma delivered_app evs1 evs2 n :
  delivered E (evs1 ++ evs2) n
  = delivered E evs1 n ++ delivered E evs2 (n + length (delivered E evs1 n)).
Proof.
  revert n. induction evs1 as [|e evs1 IH]; intros n.
  - simpl. by rewrite Nat.add_0_r.
  - cbn [app delivered]. rewrite IH, length_app, <-app_assoc.
    by rewrite Nat.add_assoc.
Qed.


Lemma notify_update_run s e w :
  event_message_id e = message_id s →
  notify_update E s e w
  = (Ok (), mkWorld (STORE w) (disk w) (channel w ++ posted E e (length (channel w)))
              (replies w) (log w) (fetches w)).
Proof.
  intros Hm. unfold notify_update, posted. rewrite Hm.
  erewrite bind_ok by reflexivity.
  destruct (message_id s) as [mid|]; [|done].
  destruct (mid =? 0); cbn [negb andb]; [done|].
  unfold try_except, send_reply. cbn [channel].
  rewrite length_app. cbn [length]. rewrite Nat.add_1_r.
  destruct (reply_accepted E _ mid); cbn [send_message channel STORE disk replies log fetches].
  - by rewrite <-app_assoc.
  - done.
Qed.

Lemma commit_commit s1 s2 e1 e2 w :
  id s2 = id s1 → (e2 = [] → s2 = s1) →
  commit E s2 e2 (commit E s1 e1 w) = commit E s2 (e1 ++ e2) w.
Proof.
  intros Hid Hnil. destruct e1 as [|a e1]; [done|].
  destruct e2 as [|b e2].
  - rewrite Hnil by done. by rewrite app_nil_r.
  - cbn [commit app STORE _signals _next_id channel replies log fetches].
    rewrite Hid, insert_insert_eq.
    change (a :: e1 ++ b :: e2) with ((a :: e1) ++ (b :: e2)).
    rewrite (delivered_app (a :: e1)), length_app, <-app_assoc. done.
Qed.

Lemma targets_loop_run price its s w :
  targets_loop E price its s w =
    (Ok (targets_summary price its s).1,
     commit E (targets_summary price its s).1 (targets_summary price its s).2 w).
Proof.
  revert s w. induction its as [|[idx tgt] rest IH]; intros s w; [done|].
  cbn [targets_loop targets_summary]. case_bool_decide; [apply IH|].
  unfold crosses_target.
  destruct (String.eqb (side s) "LONG" && PrimFloat.leb tgt price) eqn:HA;
  destruct (String.eqb (side s) "SHORT" && PrimFloat.leb price tgt) eqn:HB;
    cbn [orb]; try apply IH.
  all: set (s1 := set_hit_targets (hit_targets s ++ [idx]) s).
  all: erewrite bind_ok by reflexivity.
  all: erewrite bind_ok by by apply notify_update_run.
  all: rewrite IH; cbn [fst snd]; f_equal.
  all: etrans; [|apply (commit_commit s1 _ [TargetHit s1 idx tgt price] _ w);
                  [apply targets_summary_id|apply targets_summary_nil]].
  all: f_equal; cbn [commit delivered]; by rewrite app_nil_r.
Qed.

Lemma stop_loss_run price s w :
  stop_loss E price s w =
    (Ok (stop_summary price s).1,
     commit E (stop_summary price s).1 (stop_summary price s).2 w).
Proof.
  unfold stop_loss, stop_summary, crosses_stop.
  destruct (stop s) as [sl|]; [|done].
  destruct (active s); [|done]. cbn [andb].
  destruct (String.eqb (side s) "LONG" && PrimFloat.leb price sl);
  destruct (String.eqb (side s) "SHORT" && PrimFloat.leb sl price); cbn [orb]; try done.
  all: erewrite bind_ok by reflexivity.
  all: erewrite bind_ok by by apply notify_update_run.
  all: cbn [fst snd commit delivered mret M_ret]; by rewrite app_nil_r.
Qed.

Lemma td_get_price_run sym w :
  td_get_price E sym w = (eval (td_get_price E sym) w, tick w).
Proof.
  unfold eval, td_get_price, tick.
  repeat case_match; reflexivity.
Qed.

Lemma monitor_signal_run s w :
  monitor_signal E s w =
    if negb (active s) then (Ok (), w)
    else match eval (td_get_price E (symbol s)) w with
         | Ok p => (Ok (), commit E (evaluate p s).1 (evaluate p s).2 (tick w))
         | Raise e => (Raise e, tick w)
         end.
Proof.
  unfold monitor_signal. destruct (active s); [|done]. cbn [negb].
  destruct (eval (td_get_price E (symbol s)) w) as [p|e] eqn:Hp.
  - erewrite bind_ok by (rewrite td_get_price_run, Hp; reflexivity).
    erewrite bind_ok by apply targets_loop_run.
    erewrite bind_ok by apply stop_loss_run.
    unfold evaluate. cbn [fst snd mret M_ret]. f_equal.
    apply commit_commit.
    + apply stop_summary_id.
    + apply stop_summary_nil.
  - erewrite bind_raise by (rewrite td_get_price_run, Hp; reflexivity). done.
Qed.

(** ** Signals and worlds under the monitor *)

Lemma same_static_id s s' : same_static s s' → id s' = id s.
Proof. intros H. by rewrite <-H. Qed.

Lemma same_static_fields s s' :
  same_static s s' → side s' = side s ∧ stop s' = stop s ∧ targets s' = targets s.
Proof. intros H. rewrite <-H. by destruct s'. Qed.

Lemma same_static_refl s : same_static s s.
Proof. by destruct s. Qed.

Lemma same_static_trans s1 s2 s3 :
  same_static s1 s2 → same_static s2 s3 → same_static s1 s3.
Proof.
  unfold same_static, set_active, set_hit_targets.
  destruct s1 as [a1 a2 a3 a4 a5 a6 a7 a8 a9 a10 a11 a12 a13],
           s2 as [b1 b2 b3 b4 b5 b6 b7 b8 b9 b10 b11 b12 b13],
           s3 as [c1 c2 c3 c4 c5 c6 c7 c8 c9 c10 c11 c12 c13]; simpl.
  intros H1 H2. injection H1 as ?. injection H2 as ?. congruence.
Qed.

Lemma sig_rel_refl s : sig_rel s s [] [].
Proof.
  split; try done.
  - apply same_static_refl.
  - by rewrite app_nil_r.
  - constructor.
  - intros i Hi. by apply elem_of_nil in Hi.
  - simpl. by destruct (active s).
Qed.

Lemma sig_rel_trans s1 s2 s3 h1 h2 t1 t2 :
  sig_rel s1 s2 h1 t1 → sig_rel s2 s3 h2 t2 → sig_rel s1 s3 (h1 ++ h2) (t1 ++ t2).
Proof.
  intros [Hs1 Hh1 Hn1 Hf1 Hi1 Ht1] [Hs2 Hh2 Hn2 Hf2 Hi2 Ht2]. split.
  - by eapply same_static_trans.
  - by rewrite Hh2, Hh1, app_assoc.
  - apply NoDup_app. split; [done|]. split; [|done].
    intros i Hj1 Hj2. apply (Hf2 i Hj2). rewrite Hh1. apply elem_of_app. by right.
  - intros i [Hi|Hi]%elem_of_app; [by apply Hf1|].
    intros Hin. apply (Hf2 i Hi). rewrite Hh1. apply elem_of_app. by left.
  - intros Ha. destruct (Hi1 Ha) as [-> ->]. destruct (Hi2 Ha) as [-> ->]. done.
  - rewrite length_app, Ht1, Ht2.
    destruct (active s1) eqn:A1.
    + destruct (active s2) eqn:A2.
      * by destruct (active s3).
      * destruct (Hi2 eq_refl) as [-> _]. by rewrite A2.
    + destruct (Hi1 eq_refl) as [-> _]. rewrite A1 in *.
      destruct (Hi2 eq_refl) as [-> _]. by rewrite A1.
Qed.

Lemma hit_indices_app sid e1 e2 :
  hit_indices sid (e1 ++ e2) = hit_indices sid e1 ++ hit_indices sid e2.
Proof. apply omap_app. Qed.

Lemma stop_alerts_app sid e1 e2 :
  stop_alerts sid (e1 ++ e2) = stop_alerts sid e1 ++ stop_alerts sid e2.
Proof. apply omap_app. Qed.

Lemma new_events_app w w' evs : channel w' = channel w ++ evs → new_events w w' = evs.
Proof. intros H. unfold new_events. rewrite H. apply drop_app_length. Qed.

Lemma new_events_refl w : new_events w w = [].
Proof. apply new_events_app. by rewrite app_nil_r. Qed.

Lemma new_events_trans w1 w2 w3 :
  channel w2 = channel w1 ++ new_events w1 w2 →
  channel w3 = channel w2 ++ new_events w2 w3 →
  new_events w1 w3 = new_events w1 w2 ++ new_events w2 w3.
Proof.
  intros H1 H2. apply new_events_app. by rewrite H2, H1 at 1; rewrite app_assoc.
Qed.

Lemma world_rel_refl w : world_rel w w.
Proof.
  unfold world_rel. rewrite new_events_refl, app_nil_r. repeat split.
  intros sid. destruct (_ !! sid) as [s|]; [|done].
  exists s. split; [done|]. apply sig_rel_refl.
Qed.

Lemma world_rel_trans w1 w2 w3 : world_rel w1 w2 → world_rel w2 w3 → world_rel w1 w3.
Proof.
  intros (Hc1 & Hn1 & Hr1 & H1) (Hc2 & Hn2 & Hr2 & H2).
  pose proof (new_events_trans _ _ _ Hc1 Hc2) as Hev.
  split; [by rewrite Hev, app_assoc, <-Hc1|].
  split; [congruence|]. split; [congruence|].
  intros sid. specialize (H1 sid). specialize (H2 sid).
  rewrite Hev, hit_indices_app, stop_alerts_app.
  destruct (_signals (STORE w1) !! sid) as [s1|].
  - destruct H1 as (s2 & Hl2 & Hrel1). rewrite Hl2 in H2.
    destruct H2 as (s3 & Hl3 & Hrel2). exists s3. split; [done|].
    by eapply sig_rel_trans.
  - destruct H1 as (Hl2 & -> & ->). rewrite Hl2 in H2.
    destruct H2 as (Hl3 & -> & ->). done.
Qed.

Lemma world_rel_wf w w' : world_rel w w' → store_wf w → store_wf w'.
Proof.
  intros (_ & _ & _ & H) Hwf k s' Hk. specialize (H k).
  destruct (_signals (STORE w) !! k) as [s|] eqn:Hs.
  - destruct H as (s'' & Hl & Hrel). simplify_eq.
    rewrite (same_static_id _ _ (sr_static _ _ _ _ Hrel)). by apply Hwf.
  - destruct H as (Hl & _). congruence.
Qed.

Lemma world_rel_logged e w w' : world_rel w w' → world_rel w (logged e w').
Proof. done. Qed.

Lemma frame_trans k1 k2 w1 w2 w3 :
  channel w2 = channel w1 ++ new_events w1 w2 →
  channel w3 = channel w2 ++ new_events w2 w3 →
  frame k1 w1 w2 → frame k2 w2 w3 → frame (k1 ++ k2) w1 w3.
Proof.
  intros Hc1 Hc2 H1 H2 k Hk.
  apply not_elem_of_app in Hk as [Hk1 Hk2].
  destruct (H1 k Hk1) as (Hl1 & Hh1 & Hs1). destruct (H2 k Hk2) as (Hl2 & Hh2 & Hs2).
  rewrite (new_events_trans _ _ _ Hc1 Hc2), hit_indices_app, stop_alerts_app.
  rewrite Hl2, Hl1, Hh1, Hh2, Hs1, Hs2. done.
Qed.

Lemma frame_world_rel keys w w' :
  channel w' = channel w ++ new_events w w' →
  _next_id (STORE w') = _next_id (STORE w) →
  replies w' = replies w →
  frame keys w w' →
  (∀ k, k ∈ keys →
     match _signals (STORE w) !! k with
     | Some s => ∃ s', _signals (STORE w') !! k = Some s' ∧
                       sig_rel s s' (hit_indices k (new_events w w'))
                                    (stop_alerts k (new_events w w'))
     | None => _signals (STORE w') !! k = None ∧
               hit_indices k (new_events w w') = [] ∧
               stop_alerts k (new_events w w') = []
     end) →
  world_rel w w'.
Proof.
  intros Hc Hn Hr Hf Hk. repeat split; try done.
  intros sid. destruct (decide (sid ∈ keys)) as [Hin|Hin]; [by apply Hk|].
  destruct (Hf sid Hin) as (Hl & -> & ->). rewrite Hl.
  destruct (_signals (STORE w) !! sid) as [s|]; [|done].
  exists s. split; [done|]. apply sig_rel_refl.
Qed.

(** ** One signal's turn *)

Lemma targets_summary_spec price its s :
  let r := targets_summary price its s in
  same_static s r.1 ∧ active r.1 = active s ∧
  hit_targets r.1 = hit_targets s ++ hit_indices (id s) r.2 ∧
  NoDup (hit_indices (id s) r.2) ∧
  (∀ i, i ∈ hit_indices (id s) r.2 → i ∉ hit_targets s) ∧
  (∀ sid, sid ≠ id s → hit_indices sid r.2 = []) ∧
  (∀ sid, stop_alerts sid r.2 = []).
Proof.
  revert s. induction its as [|[idx tgt] rest IH]; intros s.
  - simpl. rewrite app_nil_r. repeat split; try done.
    + apply same_static_refl.
    + constructor.
    + intros i Hi. by apply elem_of_nil in Hi.
  - cbn [targets_summary]. case_bool_decide as Hin; [apply IH|].
    destruct (crosses_target (side s) price tgt); [|apply IH].
    set (s1 := set_hit_targets (hit_targets s ++ [idx]) s).
    destruct (IH s1) as (Hst & Hact & Hhits & Hnd & Hfresh & Hother & Hstop).
    cbn [fst snd]. cbn [hit_indices stop_alerts omap list_omap].
    fold (hit_indices (id s) (targets_summary price rest s1).2).
    change (id s1) with (id s) in *.
    rewrite bool_decide_eq_true_2 by done.
    repeat split.
    + eapply same_static_trans; [|exact Hst]. by destruct s.
    + by rewrite Hact.
    + rewrite Hhits. simpl. by rewrite <-app_assoc.
    + constructor; [|done]. intros Hi. apply (Hfresh _ Hi). simpl.
      apply elem_of_app. right. by left.
    + intros i [->|Hi]%elem_of_cons; [done|].
      intros Hi'. apply (Hfresh _ Hi). simpl. apply elem_of_app. by left.
    + intros sid Hsid. rewrite bool_decide_eq_false_2 by done. by apply Hother.
    + intros sid. apply Hstop.
Qed.

Lemma stop_summary_spec price s :
  active s = true →
  let r := stop_summary price s in
  same_static s r.1 ∧ hit_targets r.1 = hit_targets s ∧
  (∀ sid, hit_indices sid r.2 = []) ∧
  length (stop_alerts (id s) r.2) = (if negb (active r.1) then 1%nat else 0%nat) ∧
  (∀ sid, sid ≠ id s → stop_alerts sid r.2 = []).
Proof.
  intros Ha. unfold stop_summary. rewrite Ha. cbn [andb].
  destruct (stop s) as [sl|]; [destruct (crosses_stop (side s) price sl)|]; cbn.
  - rewrite bool_decide_eq_true_2 by done. repeat split; try done.
    + by destruct s.
    + intros sid Hsid. by rewrite bool_decide_eq_false_2.
  - rewrite Ha. repeat split; try done. apply same_static_refl.
  - rewrite Ha. repeat split; try done. apply same_static_refl.
Qed.

Lemma evaluate_spec price s :
  active s = true →
  sig_rel s (evaluate price s).1
    (hit_indices (id s) (evaluate price s).2) (stop_alerts (id s) (evaluate price s).2) ∧
  (∀ sid, sid ≠ id s →
     hit_indices sid (evaluate price s).2 = [] ∧ stop_alerts sid (evaluate price s).2 = []).
Proof.
  intros Ha. unfold evaluate.
  destruct (targets_summary_spec price (enumerate (targets s)) s)
    as (Hst & Hact & Hhits & Hnd & Hfresh & Hother & Hstop).
  set (r1 := targets_summary price (enumerate (targets s)) s) in *.
  destruct (stop_summary_spec price r1.1) as (Hst2 & Hhits2 & Hno2 & Hlen2 & Hother2);
    [congruence|].
  set (r2 := stop_summary price r1.1) in *.
  cbn [fst snd]. rewrite (same_static_id _ _ Hst) in *.
  split.
  - split.
    + by eapply same_static_trans.
    + rewrite hit_indices_app, Hno2, app_nil_r. congruence.
    + by rewrite hit_indices_app, Hno2, app_nil_r.
    + intros i. by rewrite hit_indices_app, Hno2, app_nil_r; apply Hfresh.
    + congruence.
    + rewrite stop_alerts_app, Hstop. simpl. by rewrite Hlen2, Ha.
  - intros sid Hsid.
    rewrite hit_indices_app, stop_alerts_app, Hno2, Hstop, Hother, Hother2; done.
Qed.

Lemma evaluate_id price s : id (evaluate price s).1 = id s.
Proof. unfold evaluate. cbn [fst]. by rewrite stop_summary_id, targets_summary_id. Qed.

Lemma evaluate_nil price s : (evaluate price s).2 = [] → (evaluate price s).1 = s.
Proof.
  unfold evaluate. cbn [fst snd]. intros [H1 H2]%app_eq_nil.
  rewrite stop_summary_nil by done. by apply targets_summary_nil.
Qed.

Lemma commit_lookup s s' evs w k :
  _signals (STORE w) !! id s = Some s → id s' = id s → (evs = [] → s' = s) →
  _signals (STORE (commit E s' evs w)) !! k
  = if decide (k = id s) then Some s' else _signals (STORE w) !! k.
Proof.
  intros Hs Hid Hnil. destruct evs as [|e evs].
  - rewrite Hnil by done. simpl. case_decide; by subst.
  - simpl. rewrite Hid. case_decide; subst.
    + by rewrite lookup_insert_eq.
    + by rewrite lookup_insert_ne.
Qed.

Lemma commit_channel s evs w :
  channel (commit E s evs w) = channel w ++ delivered E evs (length (channel w)).
Proof. destruct evs; [simpl; by rewrite app_nil_r|done]. Qed.

(** The alerts among what is delivered are the alerts given: a reply is not
    counted by [hit_indices] and [stop_alerts]. *)
Lemma hit_indices_delivered sid evs n :
  hit_indices sid (delivered E evs n) = hit_indices sid evs.
Proof.
  revert n. induction evs as [|e evs IH]; intros n; [done|].
  cbn [delivered]. rewrite hit_indices_app, IH.
  change (e :: evs) with ([e] ++ evs). rewrite hit_indices_app. f_equal.
  unfold posted. destruct (event_message_id e) as [mid|]; [|done].
  by destruct (negb (mid =? 0) && reply_accepted E (S n) mid).
Qed.

Lemma stop_alerts_delivered sid evs n :
  stop_alerts sid (delivered E evs n) = stop_alerts sid evs.
Proof.
  revert n. induction evs as [|e evs IH]; intros n; [done|].
  cbn [delivered]. rewrite stop_alerts_app, IH.
  change (e :: evs) with ([e] ++ evs). rewrite stop_alerts_app. f_equal.
  unfold posted. destruct (event_message_id e) as [mid|]; [|done].
  by destruct (negb (mid =? 0) && reply_accepted E (S n) mid).
Qed.

Lemma commit_next_id s evs w : _next_id (STORE (commit E s evs w)) = _next_id (STORE w).
Proof. by destruct evs. Qed.

Lemma commit_replies s evs w : replies (commit E s evs w) = replies w.
Proof. by destruct evs. Qed.

Lemma monitor_signal_rel s w :
  _signals (STORE w) !! id s = Some s →
  let w' := exec (monitor_signal E s) w in
  world_rel w w' ∧ frame [id s] w w'.
Proof.
  intros Hs. unfold exec. rewrite monitor_signal_run.
  destruct (active s) eqn:Ha; cbn [negb snd].
  2:{ split; [apply world_rel_refl|]. intros k _. by rewrite new_events_refl. }
  destruct (eval (td_get_price E (symbol s)) w) as [p|e]; cbn [snd].
  2:{ assert (new_events w (tick w) = []) as Hev
        by (apply new_events_app; simpl; by rewrite app_nil_r).
      assert (frame [id s] w (tick w)) as Hf by (intros k _; by rewrite Hev).
      split; [|done]. apply (frame_world_rel []); try done.
      - simpl. by rewrite Hev, app_nil_r.
      - intros k _. by rewrite Hev.
      - intros k Hk. by apply elem_of_nil in Hk. }
  destruct (evaluate_spec p s Ha) as [Hrel Hother].
  set (r := evaluate p s) in *.
  set (w' := commit E r.1 r.2 (tick w)).
  assert (new_events w w' = delivered E r.2 (length (channel w))) as Hev.
  { apply new_events_app. unfold w'. by rewrite commit_channel. }
  assert (∀ k, hit_indices k (new_events w w') = hit_indices k r.2) as Hhi.
  { intros k. by rewrite Hev, hit_indices_delivered. }
  assert (∀ k, stop_alerts k (new_events w w') = stop_alerts k r.2) as Hsa.
  { intros k. by rewrite Hev, stop_alerts_delivered. }
  assert (∀ k, _signals (STORE w') !! k
               = if decide (k = id s) then Some r.1 else _signals (STORE w) !! k) as Hl.
  { intros k. unfold w'. rewrite (commit_lookup s); try done.
    - apply evaluate_id.
    - apply evaluate_nil. }
  assert (∀ k, k ∉ [id s] → k ≠ id s) as Hne.
  { intros k Hk ->. apply Hk. by left. }
  assert (frame [id s] w w') as Hf.
  { intros k Hk. rewrite Hl, Hhi, Hsa. rewrite decide_False by by apply Hne.
    split; [done|]. apply Hother. by apply Hne. }
  split; [|done]. apply (frame_world_rel [id s]); try done.
  - rewrite Hev. unfold w'. by rewrite commit_channel.
  - unfold w'. by rewrite commit_next_id.
  - unfold w'. by rewrite commit_replies.
  - intros k ->%list_elem_of_singleton. rewrite Hs. exists r.1.
    rewrite Hl, decide_True by done. split; [done|]. by rewrite Hhi, Hsa.
Qed.

(** ** A cycle, and any number of cycles *)

Lemma for_each_cons {A} (body : A → M unit) x l w :
  for_each body (x :: l) w =
    match body x w with
    | (Ok _, w1) => for_each body l w1
    | (Raise e, w1) => (Raise e, w1)
    end.
Proof. reflexivity. Qed.

Lemma for_each_app {A} (body : A → M unit) l1 l2 w :
  for_each body (l1 ++ l2) w =
    match for_each body l1 w with
    | (Ok _, w1) => for_each body l2 w1
    | (Raise e, w1) => (Raise e, w1)
    end.
Proof.
  revert w. induction l1 as [|x l1 IH]; intros w; [done|].
  rewrite <-app_comm_cons, !for_each_cons.
  destruct (body x w) as [[[]|e] w1]; [apply IH|done].
Qed.

Lemma for_each_rel l w :
  NoDup (id <$> l) →
  (∀ s, s ∈ l → _signals (STORE w) !! id s = Some s) →
  let w' := exec (for_each (monitor_signal E) l) w in
  world_rel w w' ∧ frame (id <$> l) w w'.
Proof.
  revert w. induction l as [|s l IH]; intros w Hnd Hall.
  - split; [apply world_rel_refl|]. intros k _. unfold exec. simpl.
    by rewrite new_events_refl.
  - rewrite fmap_cons in Hnd. apply NoDup_cons in Hnd as [Hs Hnd].
    change (id <$> s :: l) with ([id s] ++ (id <$> l)).
    destruct (monitor_signal_rel s w) as [Hrel Hfr]; [apply Hall; left|].
    unfold exec. rewrite for_each_cons. unfold exec in Hrel, Hfr.
    destruct (monitor_signal E s w) as [[[]|e] w1]; cbn [snd] in *.
    + destruct (IH w1 Hnd) as [Hrel2 Hfr2].
      { intros t Ht. destruct (Hfr (id t)) as (-> & _).
        - intros Heq%list_elem_of_singleton. apply Hs. rewrite <-Heq.
          by apply list_elem_of_fmap_2.
        - apply Hall. by right. }
      split; [by eapply world_rel_trans|].
      apply (frame_trans [id s] (id <$> l) w w1); try done.
      * apply Hrel.
      * apply Hrel2.
    + split; [done|]. intros k Hk. apply Hfr.
      intros Hm. apply Hk, elem_of_app. by left.
Qed.

Lemma insert_by_key_perm s l : insert_by_key s l ≡ₚ s :: l.
Proof.
  induction l as [|t l IH]; [done|]. simpl.
  destruct (key_leb _ _); [done|]. rewrite IH. apply Permutation_swap.
Qed.

Lemma sorted_by_key_perm l : sorted_by_key l ≡ₚ l.
Proof.
  induction l as [|s l IH]; [done|]. simpl.
  by rewrite insert_by_key_perm, IH.
Qed.

Lemma all_run w :
  all w = (Ok (sorted_by_key (map_to_list (_signals (STORE w))).*2), w).
Proof. reflexivity. Qed.

(** In a well-formed store the snapshot of [all] lists every record once, and
    each record of the snapshot is the one filed under its id. *)
Lemma all_snapshot w :
  store_wf w →
  let l := sorted_by_key (map_to_list (_signals (STORE w))).*2 in
  NoDup (id <$> l) ∧ (∀ s, s ∈ l → _signals (STORE w) !! id s = Some s).
Proof.
  intros Hwf l.
  assert (∀ kv, kv ∈ map_to_list (_signals (STORE w)) → id kv.2 = kv.1) as Hkv.
  { intros [k s] H%elem_of_map_to_list. by apply Hwf. }
  split.
  - unfold l. rewrite sorted_by_key_perm.
    rewrite <-list_fmap_compose.
    erewrite (list_fmap_ext _ fst); [apply NoDup_fst_map_to_list|].
    intros i kv Hi. apply Hkv. by eapply list_elem_of_lookup_2.
  - intros s Hs. unfold l in Hs. rewrite sorted_by_key_perm in Hs.
    apply list_elem_of_fmap in Hs as ([k s'] & -> & Hin).
    rewrite (Hkv _ Hin). by apply elem_of_map_to_list.
Qed.

Lemma monitor_cycle_run w :
  monitor_cycle E w =
    let l := sorted_by_key (map_to_list (_signals (STORE w))).*2 in
    match for_each (monitor_signal E) l w with
    | (Ok _, w') => (Ok (), w')
    | (Raise e, w') => (Ok (), logged e w')
    end.
Proof.
  unfold monitor_cycle, try_except. erewrite bind_ok by apply all_run.
  cbn zeta. by destruct (for_each _ _ w) as [[[]|e] w'].
Qed.

(** The loop never ends on an exception. *)
Lemma monitor_cycle_ok w : eval (monitor_cycle E) w = Ok ().
Proof.
  unfold eval. rewrite monitor_cycle_run. cbn zeta.
  by destruct (for_each _ _ w) as [[[]|e] w'].
Qed.

Lemma monitor_cycle_rel w :
  store_wf w → world_rel w (exec (monitor_cycle E) w).
Proof.
  intros Hwf. destruct (all_snapshot w Hwf) as [Hnd Hall].
  destruct (for_each_rel _ w Hnd Hall) as [Hrel _].
  unfold exec in *. rewrite monitor_cycle_run. cbn zeta.
  destruct (for_each _ _ w) as [[[]|e] w']; cbn [snd] in *; [done|].
  by apply world_rel_logged.
Qed.

Lemma monitor_prices_S n w :
  monitor_prices E (S n) w = monitor_prices E n (exec (monitor_cycle E) w).
Proof.
  cbn [monitor_prices]. unfold exec.
  pose proof (monitor_cycle_ok w) as H. unfold eval in H.
  destruct (monitor_cycle E w) as [r w'] eqn:Hc. simpl in H. subst r.
  by erewrite bind_ok by exact Hc.
Qed.

Lemma monitor_prices_ok n w : eval (monitor_prices E n) w = Ok ().
Proof.
  revert w. induction n as [|n IH]; intros w; [done|].
  unfold eval. rewrite monitor_prices_S. apply IH.
Qed.

Lemma monitor_prices_rel n w :
  store_wf w → world_rel w (exec (monitor_prices E n) w).
Proof.
  revert w. induction n as [|n IH]; intros w Hwf; [apply world_rel_refl|].
  unfold exec. rewrite monitor_prices_S.
  pose proof (monitor_cycle_rel w Hwf) as H1.
  eapply world_rel_trans; [exact H1|]. apply IH. by eapply world_rel_wf.
Qed.

Lemma monitor_prices_wf n w :
  store_wf w → store_wf (exec (monitor_prices E n) w).
Proof. intros Hwf. eapply world_rel_wf; [by apply monitor_prices_rel|done]. Qed.

(** ** What the monitor sends

    A property of lists of messages that holds of the messages of one
    signal's turn, of no message, and of two lists put together, holds of
    what any number of cycles send. *)

Lemma evaluate_alerts price s : Forall is_alert (evaluate price s).2.
Proof.
  unfold evaluate. cbn [snd]. apply Forall_app. split.
  - generalize (enumerate (targets s)). intros its. revert s.
    induction its as [|[idx tgt] rest IH]; intros s; [constructor|].
    cbn [targets_summary]. repeat case_match; try apply IH.
    cbn [snd]. constructor; [done|apply IH].
  - unfold stop_summary. repeat case_match; repeat constructor.
Qed.

Section Sends.
Context (Q : list Event → Prop).
Hypothesis Q_nil : Q [].
Hypothesis Q_app : ∀ a b, Q a → Q b → Q (a ++ b).
Hypothesis Q_delivered : ∀ p s n, active s = true → Q (delivered E (evaluate p s).2 n).

Lemma sends_refl w : sends Q w w.
Proof. exists []. by rewrite app_nil_r. Qed.

Lemma sends_trans w1 w2 w3 : sends Q w1 w2 → sends Q w2 w3 → sends Q w1 w3.
Proof.
  intros (e1 & H1 & F1) (e2 & H2 & F2). exists (e1 ++ e2).
  split; [by rewrite H2, H1, app_assoc|]. by apply Q_app.
Qed.

Lemma monitor_signal_sends s w : sends Q w (exec (monitor_signal E s) w).
Proof.
  unfold exec. rewrite monitor_signal_run.
  destruct (active s) eqn:Ha; cbn [negb snd]; [|apply sends_refl].
  destruct (eval _ w) as [p|e]; cbn [snd].
  2:{ exists []. split; [simpl; by rewrite app_nil_r|done]. }
  exists (delivered E (evaluate p s).2 (length (channel w))).
  split; [by rewrite commit_channel|]. by apply Q_delivered.
Qed.

Lemma for_each_sends l w : sends Q w (exec (for_each (monitor_signal E) l) w).
Proof.
  revert w. induction l as [|x l IH]; intros w; [apply sends_refl|].
  unfold exec. rewrite for_each_cons.
  pose proof (monitor_signal_sends x w) as Hb. unfold exec in Hb.
  destruct (monitor_signal E x w) as [[[]|e] w1]; cbn [snd] in *; [|done].
  eapply sends_trans; [exact Hb|]. apply IH.
Qed.

Lemma monitor_cycle_sends w : sends Q w (exec (monitor_cycle E) w).
Proof.
  unfold exec. rewrite monitor_cycle_run. cbn zeta.
  pose proof (for_each_sends (sorted_by_key (map_to_list (_signals (STORE w))).*2) w) as H.
  unfold exec in H. by destruct (for_each _ _ w) as [[[]|e] w'].
Qed.

Lemma monitor_prices_sends n w : sends Q w (exec (monitor_prices E n) w).
Proof.
  revert w. induction n as [|n IH]; intros w; [apply sends_refl|].
  unfold exec. rewrite monitor_prices_S.
  eapply sends_trans; [apply monitor_cycle_sends|]. apply IH.
Qed.

End Sends.

Lemma hit_replies_app sid e1 e2 :
  hit_replies sid (e1 ++ e2) = hit_replies sid e1 ++ hit_replies sid e2.
Proof. apply omap_app. Qed.

Lemma stop_replies_app sid e1 e2 :
  stop_replies sid (e1 ++ e2) = stop_replies sid e1 ++ stop_replies sid e2.
Proof. apply omap_app. Qed.

Lemma replies_paired_app a b :
  replies_paired a → replies_paired b → replies_paired (a ++ b).
Proof.
  intros Ha Hb sid. destruct (Ha sid) as [Ha1 Ha2], (Hb sid) as [Hb1 Hb2].
  rewrite hit_replies_app, hit_indices_app, stop_replies_app, stop_alerts_app.
  split; by apply sublist_app.
Qed.

Lemma replies_paired_posted e n : is_alert e → replies_paired (posted E e n).
Proof.
  intros He sid. unfold posted.
  destruct e as [s|s idx tgt price|s sl price|mid e]; try done;
    cbn [event_message_id];
    (destruct (message_id s) as [mid|];
       [destruct (negb (mid =? 0) && reply_accepted E (S n) mid)|]);
    cbn; try case_bool_decide; split; try done; by apply sublist_nil_l.
Qed.

Lemma replies_paired_delivered evs n :
  Forall is_alert evs → replies_paired (delivered E evs n).
Proof.
  intros H. revert n. induction H as [|e evs He _ IH]; intros n.
  - intros sid. split; apply sublist_nil.
  - cbn [delivered]. apply replies_paired_app; [by apply replies_paired_posted|apply IH].
Qed.

(** Over any number of cycles, every reply to a card is the copy of an alert
    that was posted. *)
Lemma monitor_prices_paired n w :
  ∃ evs, channel (exec (monitor_prices E n) w) = channel w ++ evs ∧ replies_paired evs.
Proof.
  apply (monitor_prices_sends replies_paired).
  - intros sid. split; apply sublist_nil.
  - apply replies_paired_app.
  - intros p s k _. apply replies_paired_delivered, evaluate_alerts.
Qed.

Lemma monitor_signal_paired s w :
  ∃ evs, channel (exec (monitor_signal E s) w) = channel w ++ evs ∧ replies_paired evs.
Proof.
  apply (monitor_signal_sends replies_paired).
  - intros sid. split; apply sublist_nil.
  - intros p s' k _. apply replies_paired_delivered, evaluate_alerts.
Qed.

Lemma targets_summary_message_id price its s :
  Forall (λ e, event_message_id e = message_id s) (targets_summary price its s).2.
Proof.
  revert s. induction its as [|[idx tgt] rest IH]; intros s; [constructor|].
  cbn [targets_summary]. repeat case_match; try apply IH.
  cbn [snd]. constructor; [done|].
  exact (IH (set_hit_targets (hit_targets s ++ [idx]) s)).
Qed.

Lemma evaluate_message_id price s :
  Forall (λ e, event_message_id e = message_id s) (evaluate price s).2.
Proof.
  unfold evaluate. cbn [snd]. apply Forall_app. split.
  - apply targets_summary_message_id.
  - destruct (targets_summary_spec price (enumerate (targets s)) s) as (Hst & _).
    assert (message_id (targets_summary price (enumerate (targets s)) s).1 = message_id s)
      as Hm by exact (f_equal message_id Hst).
    unfold stop_summary. repeat case_match; repeat constructor. by rewrite <-Hm.
Qed.

(** Without a message id there is no reply. *)
Lemma delivered_no_card evs n :
  Forall (λ e, event_message_id e = None) evs → delivered E evs n = evs.
Proof.
  intros H. revert n. induction H as [|e evs He _ IH]; intros n; [done|].
  cbn [delivered]. unfold posted. rewrite He. cbn [app]. by rewrite IH.
Qed.

Lemma no_reply_no_copy sid evs :
  Forall is_alert evs → hit_replies sid evs = [] ∧ stop_replies sid evs = [].
Proof.
  induction 1 as [|e evs He _ [IH1 IH2]]; [done|].
  destruct e; try done; cbn; by rewrite ?IH1, ?IH2.
Qed.

(** ** Which targets are hit, whether the stop triggers *)

Lemma targets_summary_hit price its s idx :
  idx ∉ hit_targets s →
  idx ∈ hit_indices (id s) (targets_summary price its s).2
  ↔ ∃ tgt, (idx, tgt) ∈ its ∧ crosses_target (side s) price tgt = true.
Proof.
  revert s. induction its as [|[i0 t0] rest IH]; intros s Hidx.
  - simpl. split; [by intros ?%elem_of_nil|]. by intros (? & ?%elem_of_nil & _).
  - cbn [targets_summary]. case_bool_decide as Hin.
    { rewrite IH by done. split; intros (tgt & Ht & Hc); exists tgt; split; try done.
      - by right.
      - apply elem_of_cons in Ht as [[= -> ->]|Ht]; done. }
    destruct (crosses_target (side s) price t0) eqn:Hc0.
    + set (s1 := set_hit_targets (hit_targets s ++ [i0]) s).
      cbn [snd hit_indices omap list_omap].
      fold (hit_indices (id s) (targets_summary price rest s1).2).
      change (id s1) with (id s). rewrite bool_decide_eq_true_2 by done.
      destruct (decide (idx = i0)) as [->|Hne].
      * split; [|intros _; by left]. intros _. exists t0. split; [by left|done].
      * rewrite elem_of_cons. change (id s) with (id s1). rewrite IH.
        2:{ simpl. intros [?|?%list_elem_of_singleton]%elem_of_app; done. }
        change (side s1) with (side s).
        split.
        -- intros [?|(tgt & Ht & Hc)]; [done|]. exists tgt. split; [by right|done].
        -- intros (tgt & Ht & Hc). right. exists tgt. split; [|done].
           apply elem_of_cons in Ht as [[= ? ?]|Ht]; done.
    + rewrite IH by done. split; intros (tgt & Ht & Hc); exists tgt; split; try done.
      * by right.
      * apply elem_of_cons in Ht as [[= -> ->]|Ht]; [congruence|done].
Qed.

Lemma elem_of_enumerate {A} (l : list A) (i : nat) (x : A) :
  (Z.of_nat i, x) ∈ enumerate l ↔ l !! i = Some x.
Proof.
  unfold enumerate. rewrite elem_of_lookup_imap. split.
  - intros (j & y & [= Hj ->] & Hl). apply Nat2Z.inj in Hj. by subst.
  - intros Hl. by exists i, x.
Qed.

Lemma evaluate_hit price s i tgt :
  targets s !! i = Some tgt → Z.of_nat i ∉ hit_targets s →
  Z.of_nat i ∈ hit_indices (id s) (evaluate price s).2
  ↔ crosses_target (side s) price tgt = true.
Proof.
  intros Ht Hi. unfold evaluate. cbn [snd].
  rewrite hit_indices_app.
  assert (hit_indices (id s)
            (stop_summary price (targets_summary price (enumerate (targets s)) s).1).2
          = []) as ->.
  { unfold stop_summary. by repeat case_match. }
  rewrite app_nil_r, targets_summary_hit by done.
  split.
  - intros (tgt' & Hin%elem_of_enumerate & Hc). congruence.
  - intros Hc. exists tgt. by rewrite elem_of_enumerate.
Qed.

Lemma evaluate_stop price s sl :
  active s = true → stop s = Some sl →
  active (evaluate price s).1 = negb (crosses_stop (side s) price sl) ∧
  stop_alerts (id s) (evaluate price s).2
    = (if crosses_stop (side s) price sl then [(sl, price)] else []) ∧
  (crosses_stop (side s) price sl = true → (evaluate price s).2 ≠ []).
Proof.
  intros Ha Hst. unfold evaluate. cbn [fst snd].
  destruct (targets_summary_spec price (enumerate (targets s)) s)
    as (Hstat & Hact & _ & _ & _ & _ & Hno).
  set (r1 := targets_summary price (enumerate (targets s)) s) in *.
  destruct (same_static_fields _ _ Hstat) as (Hside & Hstop & _).
  pose proof (same_static_id _ _ Hstat) as Hid.
  rewrite stop_alerts_app, Hno. cbn [app].
  unfold stop_summary. rewrite Hstop, Hst, Hact, Ha, Hside. cbn [andb].
  destruct (crosses_stop (side s) price sl); cbn.
  - rewrite Hid, bool_decide_eq_true_2 by done. repeat split; try done.
    intros _ [_ ?]%app_eq_nil. done.
  - rewrite Hact, Ha. done.
Qed.

Lemma monitor_signal_fetched s w p :
  active s = true → eval (td_get_price E (symbol s)) w = Ok p →
  exec (monitor_signal E s) w = commit E (evaluate p s).1 (evaluate p s).2 (tick w).
Proof. intros Ha Hp. unfold exec. by rewrite monitor_signal_run, Ha, Hp. Qed.

Lemma monitor_signal_lookup s w p :
  _signals (STORE w) !! id s = Some s →
  active s = true → eval (td_get_price E (symbol s)) w = Ok p →
  let w' := exec (monitor_signal E s) w in
  _signals (STORE w') !! id s = Some (evaluate p s).1 ∧
  new_events w w' = delivered E (evaluate p s).2 (length (channel w)).
Proof.
  intros Hs Ha Hp. cbn zeta. rewrite (monitor_signal_fetched s w p) by done. split.
  - rewrite (commit_lookup s);
      [by rewrite decide_True|done|apply evaluate_id|apply evaluate_nil].
  - apply new_events_app. by rewrite commit_channel.
Qed.

Lemma crosses_target_long sd p tgt :
  sd = "LONG" → crosses_target sd p tgt = PrimFloat.leb tgt p.
Proof. intros ->. unfold crosses_target. simpl. by rewrite orb_false_r. Qed.

Lemma crosses_target_short sd p tgt :
  sd = "SHORT" → crosses_target sd p tgt = PrimFloat.leb p tgt.
Proof. intros ->. done. Qed.

Lemma crosses_stop_long sd p sl :
  sd = "LONG" → crosses_stop sd p sl = PrimFloat.leb p sl.
Proof. intros ->. unfold crosses_stop. simpl. by rewrite orb_false_r. Qed.

Lemma crosses_stop_short sd p sl :
  sd = "SHORT" → crosses_stop sd p sl = PrimFloat.leb sl p.
Proof. intros ->. done. Qed.

(** ** The handler of [/addsignal], run *)

Lemma floats_raise l x e :
  x ∈ l → float_of_str E x = Raise e → ∃ e', floats E l = Raise e'.
Proof.
  induction l as [|y l IH]; [by intros ?%elem_of_nil|].
  intros [->|Hin]%elem_of_cons Hx; simpl.
  - rewrite Hx. by eexists.
  - destruct (float_of_str E y); [|by eexists]. simpl.
    destruct (IH Hin Hx) as [e' ->]. by eexists.
Qed.

Lemma addsignal_args_bad_side kv :
  upper (default "LONG" (kv !! "side")) ∉ ["LONG"; "SHORT"] →
  ∃ e, addsignal_args E kv = Raise e.
Proof.
  intros Hside. unfold addsignal_args.
  destruct (match kv !! "entry" with Some _ => _ | None => _ end); [|by eexists].
  cbn [mbind result_bind].
  destruct (floats E _); [|by eexists]. cbn [mbind result_bind].
  destruct (match kv !! "stop" with Some _ => _ | None => _ end); [|by eexists].
  cbn [mbind result_bind].
  rewrite bool_decide_eq_false_2 by done. by eexists.
Qed.

Lemma addsignal_args_bad_target kv x e :
  x ∈ filter (λ x, x ≠ "") (split "," (default "" (kv !! "targets"))) →
  float_of_str E x = Raise e →
  ∃ e', addsignal_args E kv = Raise e'.
Proof.
  intros Hin Hx. unfold addsignal_args.
  destruct (match kv !! "entry" with Some _ => _ | None => _ end); [|by eexists].
  cbn [mbind result_bind].
  destruct (floats_raise _ _ _ Hin Hx) as [e' ->]. by eexists.
Qed.

Lemma addsignal_args_ok kv a :
  addsignal_args E kv = Ok a →
  arg_side a ∈ ["LONG"; "SHORT"] ∧
  floats E (filter (λ x, x ≠ "") (split "," (default "" (kv !! "targets"))))
    = Ok (arg_targets a).
Proof.
  unfold addsignal_args.
  destruct (match kv !! "entry" with Some _ => _ | None => _ end); [|done].
  cbn [mbind result_bind].
  destruct (floats E _); [|done]. cbn [mbind result_bind].
  destruct (match kv !! "stop" with Some _ => _ | None => _ end); [|done].
  cbn [mbind result_bind].
  case_bool_decide; [|done]. intros [= <-]. done.
Qed.

Lemma floats_raise_inv l e :
  floats E l = Raise e → ∃ x e', x ∈ l ∧ float_of_str E x = Raise e'.
Proof.
  revert e. induction l as [|y l IH]; intros e; [done|]. simpl.
  destruct (float_of_str E y) as [f|e'] eqn:Hy.
  - cbn [mbind result_bind]. destruct (floats E l) as [r|e''] eqn:Hl; [done|].
    intros _. destruct (IH e'' eq_refl) as (x & ex & Hx & He).
    exists x, ex. split; [by right|done].
  - intros _. exists y, e'. split; [by left|done].
Qed.

Lemma addsignal_args_bad_entry kv x e :
  kv !! "entry" = Some x → x ≠ "" → float_of_str E x = Raise e →
  ∃ e', addsignal_args E kv = Raise e'.
Proof.
  intros Hk Hx He. unfold addsignal_args. rewrite Hk.
  destruct (String.eqb_spec x ""); [done|]. rewrite He. by eexists.
Qed.

Lemma addsignal_args_bad_stop kv x e :
  kv !! "stop" = Some x → float_of_str E x = Raise e →
  ∃ e', addsignal_args E kv = Raise e'.
Proof.
  intros Hk He. unfold addsignal_args.
  destruct (match kv !! "entry" with Some _ => _ | None => _ end); [|by eexists].
  cbn [mbind result_bind].
  destruct (floats E _); [|by eexists]. cbn [mbind result_bind].
  rewrite Hk, He. by eexists.
Qed.

(** The [try] block raises only for one of the four reasons. *)
Lemma addsignal_args_raise_inv kv e :
  addsignal_args E kv = Raise e →
  upper (default "LONG" (kv !! "side")) ∉ ["LONG"; "SHORT"] ∨
  (∃ x e', kv !! "entry" = Some x ∧ x ≠ "" ∧ float_of_str E x = Raise e') ∨
  (∃ x e', x ∈ filter (λ x, x ≠ "") (split "," (default "" (kv !! "targets")))
           ∧ float_of_str E x = Raise e') ∨
  (∃ x e', kv !! "stop" = Some x ∧ float_of_str E x = Raise e').
Proof.
  unfold addsignal_args.
  destruct (kv !! "entry") as [x|] eqn:Hen.
  - destruct (String.eqb_spec x "") as [->|Hx].
    + cbn [mbind result_bind].
      destruct (floats E _) as [fl|e1] eqn:Hfl.
      2:{ intros _. right. right. left. by apply (floats_raise_inv _ e1). }
      cbn [mbind result_bind].
      destruct (kv !! "stop") as [y|] eqn:Hst.
      * destruct (float_of_str E y) as [f|e2] eqn:Hy.
        2:{ intros _. do 3 right. by exists y, e2. }
        cbn [mbind result_bind]. case_bool_decide; [done|]. intros _. by left.
      * cbn [mbind result_bind]. case_bool_decide; [done|]. intros _. by left.
    + destruct (float_of_str E x) as [f0|e0] eqn:Hf0.
      2:{ intros _. right. left. by exists x, e0. }
      cbn [mbind result_bind].
      destruct (floats E _) as [fl|e1] eqn:Hfl.
      2:{ intros _. right. right. left. by apply (floats_raise_inv _ e1). }
      cbn [mbind result_bind].
      destruct (kv !! "stop") as [y|] eqn:Hst.
      * destruct (float_of_str E y) as [f|e2] eqn:Hy.
        2:{ intros _. do 3 right. by exists y, e2. }
        cbn [mbind result_bind]. case_bool_decide; [done|]. intros _. by left.
      * cbn [mbind result_bind]. case_bool_decide; [done|]. intros _. by left.
  - cbn [mbind result_bind].
    destruct (floats E _) as [fl|e1] eqn:Hfl.
    2:{ intros _. right. right. left. by apply (floats_raise_inv _ e1). }
    cbn [mbind result_bind].
    destruct (kv !! "stop") as [y|] eqn:Hst.
    * destruct (float_of_str E y) as [f|e2] eqn:Hy.
      2:{ intros _. do 3 right. by exists y, e2. }
      cbn [mbind result_bind]. case_bool_decide; [done|]. intros _. by left.
    * cbn [mbind result_bind]. case_bool_decide; [done|]. intros _. by left.
Qed.

Lemma addsignal_cmd_admin u w uid text :
  effective_user u = Some uid → message u = Some text → uid ∈ ADMIN_USER_IDS E →
  addsignal_cmd E u w =
    match addsignal_args E (parse_kv_args (partition " " text).2) with
    | Raise _ => (Ok (), rejected w)
    | Ok a =>
        let s := mkSignal (_next_id (STORE w)) (CHANNEL_ID E) None (arg_symbol a)
                   (arg_side a) (arg_entry a) (arg_targets a) (arg_stop a) (arg_note a)
                   (import_time E) true [] "twelvedata" in
        let s' := set_message_id (Some (telegram_message_id E (length (channel w)))) s in
        let st := mkStore (<[id s := s']> (_signals (STORE w))) (_next_id (STORE w) + 1) in
        (Ok (),
         mkWorld st (Some (save_doc st)) (channel w ++ [SignalPublished s])
           (replies w ++ [("Signal #" ++ str_of_int (id s)
                           ++ " created and posted to channel.")%string])
           (log w) (fetches w))
    end.
Proof.
  intros Hu Hm Hadm. unfold addsignal_cmd. rewrite Hu, Hm.
  unfold is_admin. rewrite bool_decide_eq_true_2 by done. cbn [negb].
  destruct (addsignal_args E _) as [a|e]; [|done].
  erewrite bind_ok by apply add_run.
  erewrite bind_ok by reflexivity.
  erewrite bind_ok by apply update_run.
  unfold reply_text, created_at_default.
  cbn [STORE disk channel replies log fetches fst snd id set_id set_message_id
       _signals _next_id send_message].
  rewrite insert_insert_eq. reflexivity.
Qed.

(** ** Well-formed stores *)

Lemma store_wf_fresh : store_wf fresh_world.
Proof. intros k s H. simpl in H. by rewrite lookup_empty in H. Qed.

Lemma wf_insert (m : gmap Z Signal) s :
  (∀ k t, m !! k = Some t → id t = k) →
  ∀ k t, <[id s := s]> m !! k = Some t → id t = k.
Proof.
  intros Hm k t. destruct (decide (k = id s)) as [->|Hne].
  - rewrite lookup_insert_eq. by intros [= ->].
  - rewrite lookup_insert_ne by done. apply Hm.
Qed.

Lemma wf_delete (m : gmap Z Signal) sid :
  (∀ k t, m !! k = Some t → id t = k) →
  ∀ k t, base.delete sid m !! k = Some t → id t = k.
Proof. intros Hm k t H. apply Hm. by apply lookup_delete_Some in H as [_ H]. Qed.

Lemma run_op_wf o w : store_wf w → store_wf (exec (run_op o) w).
Proof.
  intros Hwf. destruct o as [s|s|sid]; unfold exec.
  - exact (wf_insert _ (set_id (_next_id (STORE w)) s) Hwf).
  - exact (wf_insert _ s Hwf).
  - unfold run_op. destruct (_signals (STORE w) !! sid) eqn:H.
    + erewrite bind_ok by (apply delete_run_present; by rewrite H).
      exact (wf_delete _ sid Hwf).
    + erewrite bind_ok by by apply delete_run_absent. done.
Qed.

Lemma run_ops_wf ops w : store_wf w → store_wf (exec (run_ops ops) w).
Proof.
  revert w. induction ops as [|o ops IH]; intros w Hwf; [done|].
  pose proof (run_op_wf o w Hwf) as H1. unfold exec in *.
  destruct (run_op_spec o w) as (a & w1 & Ha & _). rewrite Ha in H1.
  destruct (run_ops_spec ops w1) as (b & w2 & Hb & _).
  specialize (IH w1 H1). rewrite Hb in IH.
  cbn [run_ops]. erewrite bind_ok by exact Ha. by erewrite bind_ok by exact Hb.
Qed.

Lemma addsignal_cmd_wf u w : store_wf w → store_wf (exec (addsignal_cmd E u) w).
Proof.
  intros Hwf. unfold exec.
  destruct (effective_user u) as [uid|] eqn:Hu; [|by unfold addsignal_cmd; rewrite Hu].
  destruct (message u) as [text|] eqn:Hm; [|by unfold addsignal_cmd; rewrite Hu, Hm].
  destruct (decide (uid ∈ ADMIN_USER_IDS E)) as [Hadm|Hadm].
  - rewrite (addsignal_cmd_admin u w uid text Hu Hm Hadm).
    destruct (addsignal_args E _) as [a|e]; [|done].
    cbn [snd STORE _signals].
    match goal with |- context [<[id ?s := ?s']> _] => exact (wf_insert _ s' Hwf) end.
  - unfold addsignal_cmd. rewrite Hu, Hm. unfold is_admin.
    by rewrite bool_decide_eq_false_2.
Qed.

(** * The claims of the specification *)

(** C1.  Across any number of monitoring cycles and whatever the feed answers,
    the indices appended to [hit_targets] of a signal are exactly the indices
    announced by its "Target Hit" alerts, in the same order: one alert is
    posted for each call of [notify_update].  No index occurs twice among
    them, and none of them was in [hit_targets] before.  The list only grows:
    the former value is a prefix of the new one.  The copies that
    [notify_update] sends as replies to the card are among the alerts posted:
    at most one copy for each index. *)
Theorem C1_target_hit_at_most_once (n : nat) (w : World) (sid : Z) (s : Signal) :
  store_wf w →
  _signals (STORE w) !! sid = Some s →
  let w' := exec (monitor_prices E n) w in
  let announced := hit_indices sid (new_events w w') in
  let copies := hit_replies sid (new_events w w') in
  channel w' = channel w ++ new_events w w' ∧
  ∃ s', _signals (STORE w') !! sid = Some s' ∧
        hit_targets s' = hit_targets s ++ announced ∧
        NoDup announced ∧
        (∀ idx, idx ∈ hit_targets s → idx ∉ announced) ∧
        copies `sublist_of` announced ∧ NoDup copies.
Proof.
  intros Hwf Hs w' announced copies.
  destruct (monitor_prices_rel n w Hwf) as (Hc & _ & _ & H).
  split; [done|]. specialize (H sid). rewrite Hs in H.
  destruct H as (s' & Hl & Hrel). exists s'. split; [done|].
  split; [apply Hrel|]. split; [apply Hrel|].
  split; [intros idx Hin Hann; by apply (sr_fresh _ _ _ _ Hrel idx)|].
  destruct (monitor_prices_paired n w) as (evs & Hch & Hp).
  assert (copies `sublist_of` announced) as Hsub.
  { unfold copies, announced, w'. rewrite (new_events_app _ _ _ Hch). apply Hp. }
  split; [done|]. eapply sublist_NoDup; [apply Hrel|exact Hsub].
Qed.

(** C2, as the code has it.  When the fetch for a signal fails, the cycle ends
    there: the world is the one left by the signals that came before it in the
    order of [all], plus one more request and the logged exception.  The
    failing signal and the signals after it keep their records, and no alert
    is sent about them. *)
Theorem C2_fetch_failure_ends_cycle
    (w : World) (pre post : list Signal) (s : Signal) (e : exn) :
  store_wf w →
  eval all w = Ok (pre ++ s :: post) →
  eval (for_each (monitor_signal E) pre) w = Ok () →
  active s = true →
  let w1 := exec (for_each (monitor_signal E) pre) w in
  eval (td_get_price E (symbol s)) w1 = Raise e →
  let w' := exec (monitor_cycle E) w in
  eval (monitor_cycle E) w = Ok () ∧
  STORE w' = STORE w1 ∧ disk w' = disk w1 ∧ channel w' = channel w1 ∧
  log w' = log w1 ++ [e] ∧
  ∀ t, t ∈ s :: post →
    _signals (STORE w') !! id t = Some t ∧
    hit_indices (id t) (new_events w w') = [] ∧
    stop_alerts (id t) (new_events w w') = [].
Proof.
  intros Hwf Hall Hpre Ha w1 Hp w'.
  split; [apply monitor_cycle_ok|].
  assert (sorted_by_key (map_to_list (_signals (STORE w))).*2 = pre ++ s :: post) as Hl.
  { unfold eval in Hall. rewrite all_run in Hall. by injection Hall. }
  assert (w' = logged e (tick w1)) as Hw'.
  { unfold w', exec. rewrite monitor_cycle_run. cbn zeta. rewrite Hl, for_each_app.
    unfold eval in Hpre. unfold w1, exec.
    destruct (for_each (monitor_signal E) pre w) as [r w0] eqn:Hf.
    simpl in Hpre. subst r. rewrite for_each_cons, monitor_signal_run, Ha. cbn [negb].
    unfold w1, exec in Hp. rewrite Hf in Hp. simpl in Hp. by rewrite Hp. }
  rewrite Hw'. repeat split; try done.
  all: destruct (all_snapshot w Hwf) as [Hnd Hin]; rewrite Hl in Hnd, Hin.
  all: rewrite fmap_app in Hnd; apply NoDup_app in Hnd as (Hnd1 & Hdisj & _).
  all: destruct (for_each_rel pre w Hnd1) as [Hrel Hfr];
    [intros u Hu; apply Hin; apply elem_of_app; by left|].
  all: assert (id t ∉ id <$> pre) as Hnot
    by (intros Hm; apply (Hdisj _ Hm); by apply list_elem_of_fmap_2).
  all: destruct (Hfr _ Hnot) as (Hlk & Hh & Hst).
  - change (STORE (logged e (tick w1))) with (STORE w1). unfold w1. rewrite Hlk.
    apply Hin. apply elem_of_app. by right.
  - change (new_events w (logged e (tick w1))) with (new_events w w1). by apply Hh.
  - change (new_events w (logged e (tick w1))) with (new_events w w1). by apply Hst.
Qed.

(** C3.  On a fresh store three [add] give the ids 1, 2, 3, and after the
    deletion of 2 the next [add] gives 4.  In any sequence of operations from
    any store the ids assigned are strictly increasing and lie between the
    counter before and the counter after; [add] assigns the counter and
    increments it; [delete] leaves the counter alone. *)
Theorem C3_ids_strictly_increasing :
  startup E None = Ok fresh_world ∧
  (∀ s1 s2 s3 s4,
     eval (run_ops [OpAdd s1; OpAdd s2; OpAdd s3; OpDelete 2; OpAdd s4]) fresh_world
     = Ok [1; 2; 3; 4]) ∧
  (∀ ops w, ∃ ids,
     eval (run_ops ops) w = Ok ids ∧ StronglySorted Z.lt ids ∧
     Forall (λ i, _next_id (STORE w) ≤ i < _next_id (STORE (exec (run_ops ops) w))) ids) ∧
  (∀ s w, eval (add s) w = Ok (set_id (_next_id (STORE w)) s) ∧
          _next_id (STORE (exec (add s) w)) = _next_id (STORE w) + 1) ∧
  (∀ sid w, _next_id (STORE (exec (delete sid) w)) = _next_id (STORE w)).
Proof.
  split; [done|]. split; [|split; [|split]].
  - intros s1 s2 s3 s4. vm_compute. reflexivity.
  - intros ops w. destruct (run_ops_spec ops w) as (ids & w' & Hr & Hs & Hf & _).
    exists ids. unfold eval, exec. by rewrite Hr.
  - done.
  - intros sid w. unfold exec. destruct (_signals (STORE w) !! sid) eqn:H.
    + rewrite delete_run_present; [done|]. by rewrite H.
    + by rewrite delete_run_absent.
Qed.

(** C4.  For an active signal whose price was fetched, and a target index that
    is not yet in [hit_targets]: the index is recorded in the stored record,
    and announced, exactly when the price is at least the target (LONG), at
    most the target (SHORT).  The condition mentions no other target. *)
Theorem C4_target_hit_condition (s : Signal) (w : World) (p tgt : float) (i : nat) :
  _signals (STORE w) !! id s = Some s →
  active s = true →
  eval (td_get_price E (symbol s)) w = Ok p →
  targets s !! i = Some tgt →
  Z.of_nat i ∉ hit_targets s →
  let w' := exec (monitor_signal E s) w in
  let recorded :=
    ∃ s', _signals (STORE w') !! id s = Some s' ∧ Z.of_nat i ∈ hit_targets s' in
  let announced := Z.of_nat i ∈ hit_indices (id s) (new_events w w') in
  (side s = "LONG" →
     (recorded ↔ PrimFloat.leb tgt p = true) ∧ (announced ↔ PrimFloat.leb tgt p = true)) ∧
  (side s = "SHORT" →
     (recorded ↔ PrimFloat.leb p tgt = true) ∧ (announced ↔ PrimFloat.leb p tgt = true)).
Proof.
  intros Hs Ha Hp Ht Hi w' recorded announced.
  destruct (monitor_signal_lookup s w p Hs Ha Hp) as [Hl Hev].
  destruct (evaluate_spec p s Ha) as [Hrel _].
  assert (announced ↔ crosses_target (side s) p tgt = true) as Hann.
  { unfold announced, w'. rewrite Hev, hit_indices_delivered. by apply evaluate_hit. }
  set (r := evaluate p s) in *.
  assert (recorded ↔ announced) as Hrec.
  { unfold recorded, announced, w'. rewrite Hl, Hev, hit_indices_delivered. split.
    - intros (s' & Heq & Hin). assert (s' = r.1) as -> by congruence.
      rewrite (sr_hits _ _ _ _ Hrel) in Hin.
      apply elem_of_app in Hin as [?|?]; done.
    - intros Hin. eexists. split; [done|]. rewrite (sr_hits _ _ _ _ Hrel).
      apply elem_of_app. by right. }
  split; intros Hside.
  - rewrite Hrec, Hann, (crosses_target_long _ _ _ Hside). done.
  - rewrite Hrec, Hann, (crosses_target_short _ _ _ Hside). done.
Qed.

(** C5.  For an active signal with a stop whose price was fetched: the stored
    record becomes inactive exactly when the price is at most the stop (LONG),
    at least the stop (SHORT).  When it does, the file holds the saved store
    and exactly one "Stop Loss" alert is posted about the signal, with the
    stop and the price: [notify_update] is called once.  That call sends at
    most one copy of the alert as a reply to the card, and none when the
    signal has no message id.  When the record stays active, no alert is
    posted and no copy sent.  A signal that is inactive keeps its record
    through any number of later cycles, and nothing is sent about it. *)
Theorem C5_stop_loss (s : Signal) (w : World) (p sl : float) :
  _signals (STORE w) !! id s = Some s →
  active s = true →
  stop s = Some sl →
  eval (td_get_price E (symbol s)) w = Ok p →
  let w' := exec (monitor_signal E s) w in
  let deactivated :=
    ∃ s', _signals (STORE w') !! id s = Some s' ∧ active s' = false in
  (side s = "LONG" → (deactivated ↔ PrimFloat.leb p sl = true)) ∧
  (side s = "SHORT" → (deactivated ↔ PrimFloat.leb sl p = true)) ∧
  (deactivated →
     disk w' = Some (save_doc (STORE w')) ∧
     stop_alerts (id s) (new_events w w') = [(sl, p)] ∧
     stop_replies (id s) (new_events w w') `sublist_of` [(sl, p)] ∧
     (message_id s = None → stop_replies (id s) (new_events w w') = [])) ∧
  (¬ deactivated →
     stop_alerts (id s) (new_events w w') = [] ∧
     stop_replies (id s) (new_events w w') = []) ∧
  (∀ (n : nat) (w2 : World) (s2 : Signal),
     store_wf w2 → _signals (STORE w2) !! id s = Some s2 → active s2 = false →
     let w3 := exec (monitor_prices E n) w2 in
     _signals (STORE w3) !! id s = Some s2 ∧
     hit_indices (id s) (new_events w2 w3) = [] ∧
     stop_alerts (id s) (new_events w2 w3) = [] ∧
     hit_replies (id s) (new_events w2 w3) = [] ∧
     stop_replies (id s) (new_events w2 w3) = []).
Proof.
  intros Hs Ha Hst Hp w' deactivated.
  destruct (monitor_signal_lookup s w p Hs Ha Hp) as [Hl Hev].
  destruct (evaluate_stop p s sl Ha Hst) as (Hact & Hal & Hne).
  pose proof (monitor_signal_fetched s w p Ha Hp) as Hw'.
  set (r := evaluate p s) in *.
  assert (deactivated ↔ crosses_stop (side s) p sl = true) as Hd.
  { unfold deactivated, w'. rewrite Hl. split.
    - intros (s' & Heq & Hin). assert (s' = r.1) as -> by congruence.
      rewrite Hact in Hin. by apply negb_false_iff.
    - intros Hc. exists r.1. split; [done|]. by rewrite Hact, Hc. }
  assert (stop_replies (id s) (new_events w w')
            `sublist_of` stop_alerts (id s) (new_events w w')) as Hsub.
  { destruct (monitor_signal_paired s w) as (evs & Hch & Hpair).
    unfold w'. rewrite (new_events_app _ _ _ Hch). apply Hpair. }
  split; [|split; [|split; [|split]]].
  - intros Hside. by rewrite Hd, (crosses_stop_long _ _ _ Hside).
  - intros Hside. by rewrite Hd, (crosses_stop_short _ _ _ Hside).
  - intros Hc%Hd.
    assert (stop_alerts (id s) (new_events w w') = [(sl, p)]) as Hone.
    { unfold w'. by rewrite Hev, stop_alerts_delivered, Hal, Hc. }
    split; [|split; [done|split; [by rewrite <-Hone|]]].
    + unfold w'. rewrite Hw'. specialize (Hne Hc). by destruct (r.2).
    + intros Hmid. unfold w'. rewrite Hev, delivered_no_card.
      * apply no_reply_no_copy, evaluate_alerts.
      * rewrite <-Hmid. apply evaluate_message_id.
  - intros Hc.
    assert (stop_alerts (id s) (new_events w w') = []) as Hnone.
    { unfold w'. rewrite Hev, stop_alerts_delivered, Hal.
      destruct (crosses_stop (side s) p sl); [|done]. by destruct Hc; apply Hd. }
    split; [done|]. rewrite Hnone in Hsub. by apply sublist_nil_r.
  - intros n w2 s2 Hwf Hs2 Ha2 w3. subst w3.
    destruct (monitor_prices_rel n w2 Hwf) as (_ & _ & _ & H).
    specialize (H (id s)). rewrite Hs2 in H. destruct H as (s3 & Hl3 & Hrel).
    destruct (sr_inactive _ _ _ _ Hrel Ha2) as [-> Hh].
    assert (stop_alerts (id s) (new_events w2 (exec (monitor_prices E n) w2)) = []) as Hst2.
    { apply nil_length_inv. rewrite (sr_stops _ _ _ _ Hrel), Ha2. done. }
    destruct (monitor_prices_paired n w2) as (evs & Hch & Hpair).
    destruct (Hpair (id s)) as [Hp1 Hp2].
    rewrite <-(new_events_app _ _ _ Hch) in Hp1, Hp2. rewrite Hh in Hp1. rewrite Hst2 in Hp2.
    split; [done|]. split; [done|]. split; [done|].
    split; by apply sublist_nil_r.
Qed.

(** C6.  After any sequence of [add], [update] and [delete] from any store,
    [save] followed by the construction of a new store from the file gives
    back the same signals under the same ids and the same counter; [save]
    itself changes nothing in the store.  The process that loads may be
    another one ([E] is its environment).  In fact every store is read back
    from its document. *)
Theorem C6_save_load_roundtrip (ops : list store_op) (w : World) :
  let w1 := exec (run_ops ops) w in
  let w2 := exec save w1 in
  STORE w2 = STORE w1 ∧
  disk w2 = Some (save_doc (STORE w1)) ∧
  SignalStore_init E (disk w2) = Ok (STORE w1) ∧
  (∀ st, SignalStore_init E (Some (save_doc st)) = Ok st).
Proof.
  cbn zeta. split; [done|]. split; [done|]. split; [|apply load_save_doc].
  apply load_save_doc.
Qed.

(** C7, as the code has it.  For a command in ASCII of an administrator,
    the handler ends with the format error, and nothing else changed, exactly
    in four cases: the side is neither LONG nor SHORT once upper-cased; the
    entry is given, not empty, and [float] refuses it; a piece of the targets
    is refused by [float]; the stop is given and [float] refuses it.  In every
    other case a signal is created under the next id with the targets given.
    No test is made on the number of targets: when none is given (the key is
    absent, or its value has no piece between the commas) the signal is
    created with an empty list of targets. *)
Theorem C7_addsignal_validation (u : Update) (w : World) (uid : Z) (text : string) :
  effective_user u = Some uid →
  message u = Some text →
  is_ascii text = true →
  uid ∈ ADMIN_USER_IDS E →
  let kv := parse_kv_args (partition " " text).2 in
  let pieces := filter (λ x, x ≠ "") (split "," (default "" (kv !! "targets"))) in
  let bad_side := upper (default "LONG" (kv !! "side")) ∉ ["LONG"; "SHORT"] in
  let bad_entry := ∃ x e, kv !! "entry" = Some x ∧ x ≠ "" ∧ float_of_str E x = Raise e in
  let bad_target := ∃ x e, x ∈ pieces ∧ float_of_str E x = Raise e in
  let bad_stop := ∃ x e, kv !! "stop" = Some x ∧ float_of_str E x = Raise e in
  let created :=
    ∃ a s, addsignal_args E kv = Ok a ∧
           _signals (STORE (exec (addsignal_cmd E u) w)) !! _next_id (STORE w) = Some s ∧
           id s = _next_id (STORE w) ∧ side s = arg_side a ∧
           side s ∈ ["LONG"; "SHORT"] ∧ targets s = arg_targets a ∧
           floats E pieces = Ok (targets s) ∧
           _next_id (STORE (exec (addsignal_cmd E u) w)) = _next_id (STORE w) + 1 in
  let w' := exec (addsignal_cmd E u) w in
  (bad_side ∨ bad_entry ∨ bad_target ∨ bad_stop → w' = rejected w) ∧
  (w' = rejected w → bad_side ∨ bad_entry ∨ bad_target ∨ bad_stop) ∧
  (w' ≠ rejected w → created) ∧
  (pieces = [] → ¬ bad_side → ¬ bad_entry → ¬ bad_stop →
     created ∧
     ∃ s, _signals (STORE w') !! _next_id (STORE w) = Some s ∧ targets s = []).
Proof.
  intros Hu Hm _ Hadm kv pieces bad_side bad_entry bad_target bad_stop created w'.
  pose proof (addsignal_cmd_admin u w uid text Hu Hm Hadm) as Hrun.
  fold kv in Hrun.
  assert (∀ e, addsignal_args E kv = Raise e → w' = rejected w) as Hrej.
  { intros e He. unfold w', exec. rewrite Hrun, He. done. }
  assert (∀ a, addsignal_args E kv = Ok a → created ∧ w' ≠ rejected w) as Hacc.
  { intros a Ha. destruct (addsignal_args_ok kv a Ha) as [Hside Hfl].
    assert (w' = (addsignal_cmd E u w).2) as Hw' by done.
    rewrite Hrun, Ha in Hw'. cbn [snd] in Hw'. split.
    - unfold created. fold w'. rewrite Hw'. cbn [STORE _next_id _signals].
      eexists a, _. rewrite lookup_insert_eq. split_and!; done.
    - intros Heq. apply (f_equal (λ w, _next_id (STORE w))) in Heq.
      rewrite Hw' in Heq. cbn in Heq. lia. }
  assert (bad_side ∨ bad_entry ∨ bad_target ∨ bad_stop → w' = rejected w) as Hbad.
  { intros [Hb|[(x & e & Hk & Hx & He)|[(x & e & Hx & He)|(x & e & Hk & He)]]].
    - destruct (addsignal_args_bad_side kv Hb) as [e He]. by eapply Hrej.
    - destruct (addsignal_args_bad_entry kv x e Hk Hx He) as [e' He']. by eapply Hrej.
    - destruct (addsignal_args_bad_target kv x e Hx He) as [e' He']. by eapply Hrej.
    - destruct (addsignal_args_bad_stop kv x e Hk He) as [e' He']. by eapply Hrej. }
  split; [done|]. split; [|split].
  - intros Heq. destruct (addsignal_args E kv) as [a|e] eqn:Ha.
    + by destruct (Hacc a eq_refl) as [_ Hne].
    + by apply (addsignal_args_raise_inv kv e).
  - intros Hne. destruct (addsignal_args E kv) as [a|e] eqn:Ha.
    + by destruct (Hacc a eq_refl).
    + by destruct Hne; eapply Hrej.
  - intros Hp Hs He Hst. destruct (addsignal_args E kv) as [a|e] eqn:Ha.
    + destruct (Hacc a eq_refl) as [Hcr _]. split; [done|].
      destruct Hcr as (a' & s & Ha' & Hl & _ & _ & _ & _ & Hfl & _).
      exists s. split; [done|]. fold pieces in Hfl. rewrite Hp in Hfl. simpl in Hfl.
      congruence.
    + destruct (addsignal_args_raise_inv kv e Ha) as [?|[?|[(x & e' & Hx & _)|?]]];
        try done.
      fold pieces in Hx. rewrite Hp in Hx. by apply elem_of_nil in Hx.
Qed.

(** C8.  Deleting an id that is not in the store returns false and changes
    nothing at all: the store, its counter and the file are the same.
    Deleting an id that is in the store returns true, removes that record
    only, and leaves the counter alone. *)
Theorem C8_delete_absent_changes_nothing (sid : Z) (w : World) :
  (_signals (STORE w) !! sid = None → delete sid w = (Ok false, w)) ∧
  (is_Some (_signals (STORE w) !! sid) →
     eval (delete sid) w = Ok true ∧
     _signals (STORE (exec (delete sid) w)) = base.delete sid (_signals (STORE w)) ∧
     _next_id (STORE (exec (delete sid) w)) = _next_id (STORE w)).
Proof.
  split.
  - apply delete_run_absent.
  - intros H. unfold eval, exec. by rewrite delete_run_present.
Qed.

(** C10.  [update s] files [s] under [s.id] whatever the store holds: the
    signals become those of before with [s] inserted, the counter is the
    same, the file holds the saved store.  After [delete (id s)] the id is
    absent, and [update s] puts the record back. *)
Theorem C10_update_is_upsert (s : Signal) (w : World) :
  let w' := exec (update s) w in
  eval (update s) w = Ok () ∧
  _signals (STORE w') = <[id s := s]> (_signals (STORE w)) ∧
  _signals (STORE w') !! id s = Some s ∧
  dom (_signals (STORE w')) = {[ id s ]} ∪ dom (_signals (STORE w)) ∧
  _next_id (STORE w') = _next_id (STORE w) ∧
  disk w' = Some (save_doc (STORE w')) ∧
  let wd := exec (delete (id s)) w in
  let w2 := exec (update s) wd in
  _signals (STORE wd) !! id s = None ∧
  _signals (STORE w2) !! id s = Some s ∧
  disk w2 = Some (save_doc (STORE w2)).
Proof.
  cbn zeta. unfold eval, exec. rewrite !update_run. cbn [fst snd STORE _signals _next_id disk].
  split; [done|]. split; [done|]. split; [apply lookup_insert_eq|].
  split; [apply dom_insert_L|]. split; [done|]. split; [done|].
  split; [|split; [apply lookup_insert_eq|done]].
  destruct (_signals (STORE w) !! id s) eqn:H.
  - rewrite delete_run_present by by rewrite H. apply lookup_delete_eq.
  - by rewrite delete_run_absent.
Qed.

End Proofs.

(** * The claims on sample data *)

Lemma sample_world_wf : store_wf sample_world.
Proof.
  apply (bool_decide_unpack
           (map_Forall (λ k s, id s = k) (_signals (STORE sample_world)))).
  vm_compute. exact I.
Defined.

Lemma sample_admin t0 answers : 8121424156 ∈ ADMIN_USER_IDS (sample_env_at t0 answers).
Proof. simpl. apply elem_of_singleton. reflexivity. Defined.

Lemma carded_world_wf : store_wf carded_world.
Proof.
  apply (bool_decide_unpack
           (map_Forall (λ k s, id s = k) (_signals (STORE carded_world)))).
  vm_compute. exact I.
Defined.

(** One call of [notify_update] about a signal whose card is in the channel:
    the alert is posted, and sent once more as a reply to the card. *)
Lemma alert_and_copy :
  let E := sample_env [quote_of "1.11"] in
  let s' := set_hit_targets [0] carded_long in
  new_events carded_world (exec (monitor_signal E carded_long) carded_world)
  = [TargetHit s' 0 1.10 1.11; Reply 500 (TargetHit s' 0 1.10 1.11)].
Proof. vm_compute. reflexivity. Qed.

(** C1 on a feed that oscillates around the first target of the LONG signal,
    whose card is in the channel. *)
Lemma C1_witness :
  let E := sample_env [quote_of "1.11"; quote_of "1.21"; quote_of "1.09";
                       quote_of "1.11"] in
  let evs := new_events carded_world (exec (monitor_prices E 3) carded_world) in
  NoDup (hit_indices 1 evs) ∧ NoDup (hit_replies 1 evs).
Proof.
  intros E evs.
  destruct (C1_target_hit_at_most_once E 3 carded_world 1 carded_long)
    as (_ & s' & _ & _ & Hnd & _ & _ & Hnd2).
  - exact carded_world_wf.
  - reflexivity.
  - split; [exact Hnd|exact Hnd2].
Defined.

(** C2: the fetch for the first signal of the cycle fails; the second signal,
    whose own request would have been answered with a price beyond its stop,
    is not evaluated: one request was made, nothing was sent, the store is
    the same. *)
Lemma C2_counterexample :
  let E := sample_env [NoResponse; quote_of "1.21"] in
  let w' := exec (monitor_cycle E) sample_world in
  eval all sample_world = Ok [long_signal; short_signal] ∧
  eval (td_get_price E (symbol long_signal)) sample_world = Raise ClientError ∧
  stop_alerts 2 (channel (exec (monitor_signal E short_signal) (tick sample_world)))
    = [(1.20, 1.21)%float] ∧
  fetches w' = 1%nat ∧ channel w' = [] ∧ STORE w' = STORE sample_world ∧
  log w' = [ClientError].
Proof. vm_compute. repeat split; reflexivity. Qed.

(** The amended C2 when the second signal of the cycle fails. *)
Lemma C2_witness :
  let E := sample_env [quote_of "1.11"; NoResponse] in
  _signals (STORE (exec (monitor_cycle E) sample_world)) !! 2 = Some short_signal.
Proof.
  intros E.
  destruct (C2_fetch_failure_ends_cycle E sample_world [long_signal] [] short_signal
              ClientError) as (_ & _ & _ & _ & _ & H).
  - exact sample_world_wf.
  - vm_compute. reflexivity.
  - vm_compute. reflexivity.
  - reflexivity.
  - vm_compute. reflexivity.
  - apply (H short_signal). by left.
Defined.

(** C4: price 1.11 against the first target, 1.10, of the LONG signal. *)
Lemma C4_witness :
  let E := sample_env [quote_of "1.11"] in
  0 ∈ hit_indices 1 (new_events sample_world (exec (monitor_signal E long_signal) sample_world))
  ↔ PrimFloat.leb 1.10 1.11 = true.
Proof.
  intros E.
  destruct (C4_target_hit_condition E long_signal sample_world 1.11%float 1.10%float 0)
    as [Hlong _].
  - reflexivity.
  - reflexivity.
  - vm_compute. reflexivity.
  - reflexivity.
  - apply not_elem_of_nil.
  - apply (Hlong eq_refl).
Defined.

(** C5: price 1.21 against the stop, 1.20, of the SHORT signal, whose card
    is in the channel. *)
Lemma C5_witness :
  let E := sample_env [quote_of "1.21"] in
  (∃ s', _signals (STORE (exec (monitor_signal E carded_short) carded_world)) !! 2 = Some s'
         ∧ active s' = false)
  ↔ PrimFloat.leb 1.20 1.21 = true.
Proof.
  intros E.
  destruct (C5_stop_loss E carded_short carded_world 1.21%float 1.20%float)
    as (_ & Hshort & _).
  - reflexivity.
  - reflexivity.
  - reflexivity.
  - vm_compute. reflexivity.
  - apply (Hshort eq_refl).
Defined.

(** C7: a command without targets is accepted, and the signal has none. *)
Lemma C7_counterexample :
  let E := sample_env [] in
  let w' := exec (addsignal_cmd E (admin_says "/addsignal symbol=EUR/USD side=LONG entry=1.09"))
                 fresh_world in
  targets <$> (_signals (STORE w') !! 1) = Some [] ∧
  _next_id (STORE w') = 2 ∧
  replies w' = ["Signal #1 created and posted to channel."] ∧
  w' ≠ rejected fresh_world.
Proof.
  cbn zeta. split; [by vm_compute|]. split; [by vm_compute|]. split; [by vm_compute|].
  intros H. apply (f_equal (λ w, _next_id (STORE w))) in H. vm_compute in H. discriminate.
Qed.

(** The amended C7 on a command whose side is BUY. *)
Lemma C7_witness :
  let E := sample_env [] in
  exec (addsignal_cmd E (admin_says "/addsignal symbol=EUR/USD side=buy targets=1.11"))
       fresh_world
  = rejected fresh_world.
Proof.
  intros E.
  destruct (C7_addsignal_validation E
              (admin_says "/addsignal symbol=EUR/USD side=buy targets=1.11")
              fresh_world 8121424156
              "/addsignal symbol=EUR/USD side=buy targets=1.11") as (Hbad & _).
  - reflexivity.
  - reflexivity.
  - reflexivity.
  - apply sample_admin.
  - apply Hbad. left.
    apply (bool_decide_unpack _). vm_compute. exact I.
Defined.

(** C8 on an id that is absent and on one that is present. *)
Lemma C8_witness :
  delete 7 sample_world = (Ok false, sample_world) ∧
  eval (delete 1) sample_world = Ok true.
Proof.
  split.
  - apply (proj1 (C8_delete_absent_changes_nothing 7 sample_world)). reflexivity.
  - apply (proj2 (C8_delete_absent_changes_nothing 1 sample_world)).
    exists long_signal. reflexivity.
Defined.

Lemma same_static_created_at s s' : same_static s s' → created_at s' = created_at s.
Proof. intros H. rewrite <-H. by destruct s'. Qed.

(** C9.  Two signals are created by two commands, with any number of
    monitoring cycles between them, in a process whose module was imported at
    [t0].  Both carry [t0] as [created_at]: the timestamp is the one of the
    import, it is kept afterwards, and it is the same for every signal that
    the process creates. *)
Theorem C9_created_at_is_import_time (t0 : string) (answers : list response) (n : nat) :
  let E := sample_env_at t0 answers in
  let w1 := exec (addsignal_cmd E (admin_says "/addsignal symbol=EUR/USD side=LONG targets=1.11"))
                 fresh_world in
  let w2 := exec (monitor_prices E n) w1 in
  let w3 := exec (addsignal_cmd E (admin_says "/addsignal symbol=GBP/USD side=SHORT targets=1.09"))
                 w2 in
  created_at <$> (_signals (STORE w3) !! 1) = Some t0 ∧
  created_at <$> (_signals (STORE w3) !! 2) = Some t0.
Proof.
  intros E w1 w2 w3.
  pose proof (addsignal_cmd_admin E
                (admin_says "/addsignal symbol=EUR/USD side=LONG targets=1.11")
                fresh_world 8121424156 _ eq_refl eq_refl (sample_admin t0 answers))
    as H1.
  destruct (addsignal_args E _) as [a1|e1] eqn:Ha1 in H1;
    [|vm_compute in Ha1; discriminate].
  assert (store_wf w1) as Hwf1 by apply addsignal_cmd_wf, store_wf_fresh.
  assert (∃ s1, _signals (STORE w1) !! 1 = Some s1 ∧ created_at s1 = t0) as (s1 & Hl1 & Hc1).
  { unfold w1, exec. rewrite H1. cbn [snd STORE _signals _next_id fresh_world id].
    eexists. rewrite lookup_insert_eq. done. }
  assert (_next_id (STORE w1) = 2) as Hn1 by (unfold w1, exec; by rewrite H1).
  destruct (monitor_prices_rel E n w1 Hwf1) as (_ & Hn2 & _ & H).
  fold w2 in Hn2, H. specialize (H 1). rewrite Hl1 in H.
  destruct H as (s2 & Hl2 & Hrel).
  pose proof (same_static_created_at _ _ (sr_static _ _ _ _ Hrel)) as Hc2.
  pose proof (addsignal_cmd_admin E
                (admin_says "/addsignal symbol=GBP/USD side=SHORT targets=1.09")
                w2 8121424156 _ eq_refl eq_refl (sample_admin t0 answers))
    as H3.
  destruct (addsignal_args E _) as [a3|e3] eqn:Ha3 in H3;
    [|vm_compute in Ha3; discriminate].
  unfold w3, exec. rewrite H3. cbn [snd STORE _signals id].
  rewrite Hn2, Hn1. split.
  - rewrite lookup_insert_ne by done. rewrite Hl2. simpl. congruence.
  - by rewrite lookup_insert_eq.
Qed.

(** * Further properties of the code *)

Section More.
Context (E : Env).
(** The builtin [str] on a float, which [/list] uses. *)
Context (str_of_float : float → string).

(** ** Records and documents *)

(** X1.  A record is read back from its dict. *)
Theorem X1_from_dict_to_dict (s : Signal) : from_dict E (to_dict s) = Ok s.
Proof. apply from_dict_to_dict. Qed.

Lemma forallb_fields_false (d : list (string * json)) k v :
  (k, v) ∈ d → k ∉ Signal_fields →
  forallb (λ kv : string * json, bool_decide (kv.1 ∈ Signal_fields)) d = false.
Proof.
  intros Hin Hk. apply not_true_is_false. intros H.
  rewrite forallb_forall in H. apply list_elem_of_In in Hin.
  specialize (H _ Hin). simpl in H. by apply bool_decide_eq_true in H.
Qed.

(** X2.  [from_dict] refuses a dict with a key that is no field, a dict
    without [id] or without [chat_id], and what is no dict; a dict with
    [id] and [chat_id] only gives the record of the defaults, whose
    [created_at] is the import time. *)
Theorem X2_from_dict_errors_and_defaults :
  (∀ d k v, (k, v) ∈ d → k ∉ Signal_fields → from_dict E (JObj d) = Raise TypeError) ∧
  (∀ d, dict_get "id" d = None → from_dict E (JObj d) = Raise TypeError) ∧
  (∀ d, dict_get "chat_id" d = None → from_dict E (JObj d) = Raise TypeError) ∧
  (∀ j, (∀ d, j ≠ JObj d) → from_dict E j = Raise TypeError) ∧
  (∀ i c, from_dict E (JObj [("id", JInt i); ("chat_id", JInt c)])
          = Ok (mkSignal i c None "EUR/USD" "LONG" 0%float [] None "" (import_time E)
                  true [] "twelvedata")).
Proof.
  split; [|split; [|split; [|split]]].
  - intros d k v Hin Hk. unfold from_dict. by rewrite (forallb_fields_false d k v).
  - intros d Hid. unfold from_dict, field_req. rewrite Hid.
    by destruct (forallb _ d).
  - intros d Hc. unfold from_dict, field_req. rewrite Hc.
    destruct (forallb _ d); [|done].
    destruct (dict_get "id" d) as [j|]; [|done]. destruct j; reflexivity.
  - intros j Hj. destruct j; try done. by destruct (Hj members).
  - intros i c. reflexivity.
Qed.







(** X4.  Without a file, and with a document that has neither [next_id] nor
    [signals], the store is empty and its counter is 1; a document that is no
    object is refused. *)
Theorem X4_load_defaults :
  SignalStore_init E None = Ok (mkStore ∅ 1) ∧
  (∀ data, dict_get "next_id" data = None → dict_get "signals" data = None →
     SignalStore_init E (Some (JObj data)) = Ok (mkStore ∅ 1)) ∧
  (∀ j, (∀ data, j ≠ JObj data) → SignalStore_init E (Some j) = Raise AttributeError).
Proof.
  split; [done|]. split.
  - intros data Hn Hs. unfold SignalStore_init, load, field_or. by rewrite Hn, Hs.
  - intros j Hj. destruct j; try done. by destruct (Hj members).
Qed.

(** ** The store *)

(** X5.  [get] after [add] finds the new record under the id that the counter
    gave, and what it found before under any other id; after [delete k] it
    finds nothing under [k]; after [update] it finds the record updated. *)
Theorem X5_get_after_add_and_delete (s : Signal) (k : Z) (w : World) :
  eval (get k) (exec (add s) w)
  = (if decide (k = _next_id (STORE w)) then Ok (Some (set_id k s))
     else eval (get k) w) ∧
  eval (get k) (exec (delete k) w) = Ok None ∧
  eval (get k) (exec (update (set_id k s)) w) = Ok (Some (set_id k s)).
Proof.
  unfold eval, exec, get, get_store, mbind, M_bind, mret, M_ret.
  rewrite add_run, update_run. cbn [fst snd STORE _signals id set_id].
  split; [|split].
  - case_decide as Hk.
    + subst k. by rewrite lookup_insert_eq.
    + by rewrite lookup_insert_ne.
  - destruct (_signals (STORE w) !! k) eqn:H.
    + rewrite delete_run_present by by rewrite H. simpl. by rewrite lookup_delete_eq.
    + rewrite delete_run_absent by done. simpl. by rewrite H.
  - by rewrite lookup_insert_eq.
Qed.

Lemma key_leb_listed a b :
  key_leb (sort_key a) (sort_key b) = true ↔ listed_before a b.
Proof.
  unfold key_leb, sort_key, listed_before. simpl.
  destruct (active a), (active b); simpl; rewrite ?Z.leb_le;
    intuition (try discriminate; try lia).
Qed.

Lemma listed_before_trans a b c :
  listed_before a b → listed_before b c → listed_before a c.
Proof.
  unfold listed_before.
  destruct (active a), (active b), (active c);
    intuition (try discriminate; try lia).
Qed.

Lemma listed_before_total a b : listed_before a b ∨ listed_before b a.
Proof.
  unfold listed_before.
  destruct (active a), (active b); destruct (decide (id a ≤ id b));
    intuition (try discriminate; try lia).
Qed.

Lemma insert_by_key_sorted s l :
  StronglySorted listed_before l → StronglySorted listed_before (insert_by_key s l).
Proof.
  induction 1 as [|t l Hl IH Ht]; simpl.
  - repeat constructor.
  - destruct (key_leb (sort_key s) (sort_key t)) eqn:Hk.
    + apply key_leb_listed in Hk. constructor; [by constructor|].
      constructor; [done|]. eapply Forall_impl; [exact Ht|].
      intros u Hu. by eapply listed_before_trans.
    + constructor; [done|]. rewrite insert_by_key_perm. constructor; [|done].
      destruct (listed_before_total s t) as [H|H]; [|done].
      apply key_leb_listed in H. congruence.
Qed.

Lemma sorted_by_key_sorted l : StronglySorted listed_before (sorted_by_key l).
Proof.
  induction l as [|s l IH]; simpl; [constructor|]. by apply insert_by_key_sorted.
Qed.

(** X6.  [all] changes nothing and lists every stored record once, the
    active ones first and in each group by ascending id. *)
Theorem X6_all_sorted (w : World) :
  ∃ l, all w = (Ok l, w) ∧
       l ≡ₚ (map_to_list (_signals (STORE w))).*2 ∧
       length l = size (_signals (STORE w)) ∧
       StronglySorted listed_before l.
Proof.
  eexists. split; [apply all_run|]. split; [apply sorted_by_key_perm|].
  split; [|apply sorted_by_key_sorted].
  rewrite sorted_by_key_perm, length_fmap. by rewrite length_map_to_list.
Qed.

Lemma persisted_restart E' w :
  persisted w → SignalStore_init E' (disk w) = Ok (STORE w).
Proof.
  intros [->|[-> ->]]; [apply load_save_doc|done].
Qed.

Lemma run_op_persisted o w : persisted w → persisted (exec (run_op o) w).
Proof.
  intros Hp. destruct o as [s|s|sid]; unfold exec; [by left|by left|].
  unfold run_op. destruct (_signals (STORE w) !! sid) eqn:H.
  - erewrite bind_ok by (apply delete_run_present; by rewrite H). by left.
  - by erewrite bind_ok by by apply delete_run_absent.
Qed.

Lemma run_ops_persisted ops w : persisted w → persisted (exec (run_ops ops) w).
Proof.
  revert w. induction ops as [|o ops IH]; intros w Hp; [done|].
  pose proof (run_op_persisted o w Hp) as H1. unfold exec in *.
  destruct (run_op_spec o w) as (a & w1 & Ha & _). rewrite Ha in H1.
  destruct (run_ops_spec ops w1) as (b & w2 & Hb & _).
  specialize (IH w1 H1). rewrite Hb in IH.
  cbn [run_ops]. erewrite bind_ok by exact Ha. by erewrite bind_ok by exact Hb.
Qed.

(** X7.  The store operations keep the file in step with the store: when the
    file held the store before a sequence of [add], [update] and [delete], it
    holds it after, with no [save] of the caller, and a store built from the
    file is the store. *)
Theorem X7_store_operations_persist (E' : Env) (ops : list store_op) (w : World) :
  persisted w →
  let w' := exec (run_ops ops) w in
  persisted w' ∧ SignalStore_init E' (disk w') = Ok (STORE w').
Proof.
  intros Hp. pose proof (run_ops_persisted ops w Hp) as H.
  split; [done|]. by apply persisted_restart.
Qed.

(** ** The provider *)

(** X8.  [td_get_price] counts one request and changes nothing else, whether
    it fails or not.  It raises when there is no answer, when the status is
    400 or more (whatever the payload says), and when the payload has no
    [price]; a price given as a string goes through [float]. *)
Theorem X8_td_get_price (sym : string) (w : World) :
  exec (td_get_price E sym) w = tick w ∧
  (twelvedata E (fetches w) sym = NoResponse →
     eval (td_get_price E sym) w = Raise ClientError) ∧
  (∀ status body, twelvedata E (fetches w) sym = Response status body →
     400 ≤ status → eval (td_get_price E sym) w = Raise ClientError) ∧
  (∀ status data, twelvedata E (fetches w) sym = Response status (Some (JObj data)) →
     status < 400 → dict_get "price" data = None →
     eval (td_get_price E sym) w = Raise ValueError) ∧
  (∀ status data p, twelvedata E (fetches w) sym = Response status (Some (JObj data)) →
     status < 400 → dict_get "price" data = Some (JStr p) →
     eval (td_get_price E sym) w = float_of_str E p).
Proof.
  split; [unfold exec; by rewrite td_get_price_run|].
  unfold eval, td_get_price. split_and!.
  - by intros ->.
  - intros status body -> Hs. by rewrite (proj2 (Z.leb_le 400 status) Hs).
  - intros status data -> Hs ->. by rewrite (proj2 (Z.leb_gt 400 status) Hs).
  - intros status data p -> Hs ->. by rewrite (proj2 (Z.leb_gt 400 status) Hs).
Qed.

(** ** The monitor *)

Lemma crosses_target_true sd p tgt :
  crosses_target sd p tgt = true →
  (sd = "LONG" ∧ PrimFloat.leb tgt p = true) ∨ (sd = "SHORT" ∧ PrimFloat.leb p tgt = true).
Proof.
  unfold crosses_target.
  intros [H|H]%orb_true_iff; apply andb_true_iff in H as [H1 H2];
    apply String.eqb_eq in H1; auto.
Qed.

Lemma crosses_stop_true sd p sl :
  crosses_stop sd p sl = true →
  (sd = "LONG" ∧ PrimFloat.leb p sl = true) ∨ (sd = "SHORT" ∧ PrimFloat.leb sl p = true).
Proof.
  unfold crosses_stop.
  intros [H|H]%orb_true_iff; apply andb_true_iff in H as [H1 H2];
    apply String.eqb_eq in H1; auto.
Qed.

Lemma targets_summary_justified price its s :
  active s = true →
  (∀ idx tgt, (idx, tgt) ∈ its → ∃ i : nat, idx = Z.of_nat i ∧ targets s !! i = Some tgt) →
  Forall alert_justified (targets_summary price its s).2.
Proof.
  revert s. induction its as [|[idx tgt] rest IH]; intros s Ha Hits; [constructor|].
  cbn [targets_summary].
  assert (∀ idx' tgt', (idx', tgt') ∈ rest →
            ∃ i : nat, idx' = Z.of_nat i ∧ targets s !! i = Some tgt') as Hrest.
  { intros ? ? ?. apply Hits. by right. }
  case_bool_decide; [by apply IH|].
  destruct (crosses_target (side s) price tgt) eqn:Hc; [|by apply IH].
  cbn [snd]. constructor.
  - simpl. split; [apply Hits; by left|]. split; [apply elem_of_app; right; by left|].
    split; [done|]. by apply crosses_target_true.
  - by apply IH.
Qed.

Lemma evaluate_justified price s :
  active s = true → Forall alert_justified (evaluate price s).2.
Proof.
  intros Ha. unfold evaluate. cbn [snd]. apply Forall_app. split.
  - apply targets_summary_justified; [done|].
    intros idx tgt Hin. unfold enumerate in Hin.
    apply elem_of_lookup_imap in Hin as (i & x & [= -> ->] & Hl). by exists i.
  - destruct (targets_summary_spec price (enumerate (targets s)) s) as (Hst & Hact & _).
    destruct (same_static_fields _ _ Hst) as (Hside & Hstop & _).
    unfold stop_summary.
    destruct (stop _) as [sl|] eqn:Hs; [|constructor].
    destruct (active _ && crosses_stop _ price sl) eqn:Hc; [|constructor].
    apply andb_true_iff in Hc as [_ Hc].
    constructor; [|constructor]. simpl. split; [done|]. split; [done|].
    by apply crosses_stop_true.
Qed.

Lemma Forall_delivered (P : Event → Prop) evs n :
  (∀ mid e, P e → P (Reply mid e)) → Forall P evs → Forall P (delivered E evs n).
Proof.
  intros HP H. revert n. induction H as [|e evs He _ IH]; intros n; [constructor|].
  cbn [delivered]. apply Forall_app. split; [|apply IH].
  unfold posted. constructor; [done|].
  destruct (event_message_id e) as [mid|]; [|constructor].
  destruct (negb (mid =? 0) && reply_accepted E (S n) mid); repeat constructor.
  by apply HP.
Qed.

Lemma monitor_prices_emits n w :
  sends (Forall alert_justified) w (exec (monitor_prices E n) w).
Proof.
  apply monitor_prices_sends.
  - constructor.
  - intros a b Ha Hb. by apply Forall_app.
  - intros p s k Ha. apply Forall_delivered; [done|]. by apply evaluate_justified.
Qed.

(** X9.  Whatever the store and the feed, the monitor only adds to the
    channel, and every alert it sends is justified: a "Target Hit" names a
    target of the signal at its index, recorded as hit, that the price had
    reached in the direction of the side; a "Stop Loss" names the stop of the
    signal, now inactive, that the price had reached.  The side is LONG or
    SHORT in every alert, and the monitor publishes no card. *)
Theorem X9_alerts_are_justified (n : nat) (w : World) :
  let w' := exec (monitor_prices E n) w in
  channel w' = channel w ++ new_events w w' ∧
  Forall alert_justified (new_events w w').
Proof.
  destruct (monitor_prices_emits n w) as (evs & Hc & Hf). cbn zeta.
  by rewrite (new_events_app _ _ _ Hc).
Qed.

(** X10.  The monitor never raises, never answers the operator, never moves
    the counter, never adds or removes a signal, and changes no field of a
    record but [active] and [hit_targets]; it leaves an inactive record as it
    is, so [active] never goes back to true. *)
Theorem X10_monitor_leaves_the_rest (n : nat) (w : World) :
  store_wf w →
  let w' := exec (monitor_prices E n) w in
  eval (monitor_prices E n) w = Ok () ∧
  _next_id (STORE w') = _next_id (STORE w) ∧
  replies w' = replies w ∧
  dom (_signals (STORE w')) = dom (_signals (STORE w)) ∧
  ∀ sid s', _signals (STORE w') !! sid = Some s' →
    ∃ s, _signals (STORE w) !! sid = Some s ∧
         set_active (active s) (set_hit_targets (hit_targets s) s') = s ∧
         (active s = false → s' = s).
Proof.
  intros Hwf w'. split; [apply monitor_prices_ok|].
  destruct (monitor_prices_rel E n w Hwf) as (_ & Hn & Hr & H). fold w' in Hn, Hr, H.
  split; [done|]. split; [done|]. split.
  - apply set_eq. intros k. rewrite !elem_of_dom. specialize (H k).
    destruct (_signals (STORE w) !! k) as [s|].
    + destruct H as (s' & -> & _). by split; eauto.
    + destruct H as (-> & _). done.
  - intros sid s' Hl. specialize (H sid).
    destruct (_signals (STORE w) !! sid) as [s|].
    + destruct H as (s'' & Hl' & Hrel). rewrite Hl in Hl'. injection Hl' as <-.
      exists s. split; [done|]. split; [apply Hrel|].
      intros Ha. by destruct (sr_inactive _ _ _ _ Hrel Ha).
    + destruct H as (Hl' & _). congruence.
Qed.

Lemma commit_fetches s evs w : fetches (commit E s evs w) = fetches w.
Proof. by destruct evs. Qed.

Lemma commit_log s evs w : log (commit E s evs w) = log w.
Proof. by destruct evs. Qed.

Lemma monitor_signal_requests s w :
  let w' := exec (monitor_signal E s) w in
  fetches w' = (fetches w + (if active s then 1 else 0))%nat ∧ log w' = log w ∧
  (active s = false → w' = w).
Proof.
  cbn zeta. unfold exec. rewrite monitor_signal_run.
  destruct (active s); cbn [negb snd].
  - destruct (eval _ w); cbn [snd]; rewrite ?commit_fetches, ?commit_log; simpl;
      (split; [lia|done]).
  - split; [lia|done].
Qed.

Lemma for_each_requests l w :
  let w' := exec (for_each (monitor_signal E) l) w in
  let k := length (filter (λ s, active s = true) l) in
  (fetches w' ≤ fetches w + k)%nat ∧ log w' = log w ∧
  (eval (for_each (monitor_signal E) l) w = Ok () → fetches w' = (fetches w + k)%nat) ∧
  (k = 0%nat → for_each (monitor_signal E) l w = (Ok (), w)).
Proof.
  revert w. induction l as [|s l IH]; intros w.
  - cbn. repeat split; lia.
  - cbn zeta. unfold exec, eval. rewrite for_each_cons.
    destruct (monitor_signal_requests s w) as (Hf & Hl & Hi). unfold exec in Hf, Hl, Hi.
    rewrite filter_cons.
    destruct (monitor_signal E s w) as [[[]|e] w1] eqn:Hm; cbn [fst snd] in *.
    + destruct (IH w1) as (IH1 & IH2 & IH3 & IH4). unfold exec, eval in IH1, IH2, IH3, IH4.
      destruct (active s) eqn:Ha.
      * rewrite decide_True by done. cbn [length].
        split; [lia|]. split; [congruence|]. split; [|lia].
        intros Hok. rewrite (IH3 Hok). lia.
      * rewrite decide_False by done.
        split; [lia|]. split; [congruence|]. split.
        -- intros Hok. rewrite (IH3 Hok). lia.
        -- intros Hk. specialize (Hi eq_refl). subst w1. by apply IH4.
    + destruct (active s) eqn:Ha.
      * rewrite decide_True by done. cbn [length].
        split; [lia|]. split; [done|]. split; [done|]. lia.
      * exfalso. rewrite monitor_signal_run, Ha in Hm. done.
Qed.

Lemma delivered_feed feed evs n :
  delivered (with_feed feed E) evs n = delivered E evs n.
Proof.
  revert n. induction evs as [|e evs IH]; intros n; [done|].
  cbn [delivered]. by rewrite IH.
Qed.

Lemma commit_feed feed s evs w : commit (with_feed feed E) s evs w = commit E s evs w.
Proof. destruct evs as [|e evs]; [done|]. unfold commit. by rewrite delivered_feed. Qed.

Lemma monitor_signal_feed feed s w :
  (active s = true → feed (fetches w) (symbol s) = twelvedata E (fetches w) (symbol s)) →
  monitor_signal (with_feed feed E) s w = monitor_signal E s w.
Proof.
  intros H. rewrite !monitor_signal_run. destruct (active s); [|done]. cbn [negb].
  assert (eval (td_get_price (with_feed feed E) (symbol s)) w
          = eval (td_get_price E (symbol s)) w) as ->.
  { unfold eval, td_get_price. cbn [twelvedata with_feed]. by rewrite H. }
  destruct (eval _ w); [|reflexivity]. by rewrite commit_feed.
Qed.

Lemma for_each_feed feed l w :
  (∀ (i : nat) s, filter (λ s, active s = true) l !! i = Some s →
     feed (fetches w + i)%nat (symbol s) = twelvedata E (fetches w + i)%nat (symbol s)) →
  for_each (monitor_signal (with_feed feed E)) l w = for_each (monitor_signal E) l w.
Proof.
  revert w. induction l as [|s l IH]; intros w H; [done|].
  rewrite !for_each_cons. rewrite filter_cons in H.
  destruct (monitor_signal_requests s w) as (Hf & _ & Hi). unfold exec in Hf, Hi.
  destruct (active s) eqn:Ha.
  - rewrite decide_True in H by done.
    rewrite monitor_signal_feed
      by (intros _; specialize (H 0%nat s eq_refl); by rewrite Nat.add_0_r in H).
    destruct (monitor_signal E s w) as [[[]|e] w1]; [|done]. cbn [snd] in Hf.
    apply IH. intros i t Ht. specialize (H (S i) t Ht).
    by replace (fetches w1 + i)%nat with (fetches w + S i)%nat by lia.
  - rewrite decide_False in H by done.
    rewrite monitor_signal_feed by (intros ?; congruence).
    rewrite monitor_signal_run, Ha. cbn [negb]. by apply IH.
Qed.

(** X11.  A cycle asks the provider once for each active signal of its
    snapshot, in the order of the snapshot, until a request fails, and never
    for an inactive signal: its i-th request is for the symbol of the i-th
    active signal, and the cycle depends on the feed through the answers to
    these requests only.  It makes at most as many requests as there are
    active signals; it logs at most one exception, and when it logs none it
    has made exactly that many.  With no active signal the cycle changes
    nothing at all. *)
Theorem X11_cycle_requests_and_log (w : World) (l : list Signal) :
  eval all w = Ok l →
  let w' := exec (monitor_cycle E) w in
  let actives := filter (λ s, active s = true) l in
  let k := length actives in
  (fetches w' ≤ fetches w + k)%nat ∧
  (log w' = log w ∨ ∃ e, log w' = log w ++ [e]) ∧
  (log w' = log w → fetches w' = (fetches w + k)%nat) ∧
  (k = 0%nat → w' = w) ∧
  (∀ feed,
     (∀ (i : nat) s, actives !! i = Some s →
        feed (fetches w + i)%nat (symbol s) = twelvedata E (fetches w + i)%nat (symbol s)) →
     monitor_cycle (with_feed feed E) w = monitor_cycle E w).
Proof.
  intros Hall. unfold eval in Hall. rewrite all_run in Hall. injection Hall as <-.
  cbn zeta. set (l := sorted_by_key _).
  destruct (for_each_requests l w) as (H1 & H2 & H3 & H4).
  assert (∀ feed,
     (∀ (i : nat) s, filter (λ s, active s = true) l !! i = Some s →
        feed (fetches w + i)%nat (symbol s) = twelvedata E (fetches w + i)%nat (symbol s)) →
     monitor_cycle (with_feed feed E) w = monitor_cycle E w) as H5.
  { intros feed Hfeed. rewrite !monitor_cycle_run. cbn zeta. fold l.
    by rewrite for_each_feed. }
  cut ((fetches (exec (monitor_cycle E) w) ≤ fetches w
          + length (filter (λ s, active s = true) l))%nat ∧
       (log (exec (monitor_cycle E) w) = log w
        ∨ ∃ e, log (exec (monitor_cycle E) w) = log w ++ [e]) ∧
       (log (exec (monitor_cycle E) w) = log w →
        fetches (exec (monitor_cycle E) w)
        = (fetches w + length (filter (λ s, active s = true) l))%nat) ∧
       (length (filter (λ s, active s = true) l) = 0%nat → exec (monitor_cycle E) w = w)).
  { intros (? & ? & ? & ?). by split_and!. }
  clear H5.
  unfold exec, eval in *. rewrite monitor_cycle_run. cbn zeta. fold l.
  destruct (for_each (monitor_signal E) l w) as [[[]|e] w1]; cbn [fst snd] in *.
  - split; [done|]. split; [by left|]. split; [by auto|].
    intros Hk. specialize (H4 Hk). by injection H4.
  - split; [done|]. split; [right; exists e; by rewrite <-H2|]. split.
    + intros Hl. rewrite <-H2 in Hl. simpl in Hl.
      apply (f_equal length) in Hl. rewrite length_app in Hl. simpl in Hl. lia.
    + intros Hk. by specialize (H4 Hk).
Qed.

(** ** Parsing the arguments *)

Lemma lower_char_idemp c : lower_char (lower_char c) = lower_char c.
Proof. destruct c as [[|] [|] [|] [|] [|] [|] [|] [|]]; reflexivity. Qed.

Lemma lower_idemp s : lower (lower s) = lower s.
Proof.
  induction s as [|c s IH]; [done|]. unfold lower in *. simpl.
  by rewrite lower_char_idemp, IH.
Qed.

Lemma foldl_insert_keys {A} (P : string → Prop) (f : A → option (string * string))
    (l : list A) (m : gmap string string) :
  (∀ x k v, f x = Some (k, v) → P k) →
  (∀ k v, m !! k = Some v → P k) →
  ∀ k v, foldl (λ kv x, match f x with Some (k, v) => <[k := v]> kv | None => kv end) m l
           !! k = Some v → P k.
Proof.
  intros Hf. revert m. induction l as [|x l IH]; intros m Hm; [done|].
  simpl. apply IH. destruct (f x) as [[k0 v0]|] eqn:Hx; [|done].
  intros k v. destruct (decide (k = k0)) as [->|Hne].
  - intros _. by eapply Hf.
  - rewrite lookup_insert_ne by done. apply Hm.
Qed.

Lemma foldl_pointwise {A B} (f g : B → A → B) (l : list A) (b : B) :
  (∀ b x, f b x = g b x) → foldl f b l = foldl g b l.
Proof.
  intros H. revert b. induction l as [|x l IH]; intros b; [done|].
  simpl. by rewrite H, IH.
Qed.

(** X12.  Every key of the dictionary built by [parse_kv_args] is in lower
    case, whatever the text: the handler, which looks keys up in lower case,
    sees every pair that was parsed. *)
Theorem X12_parse_kv_args_keys (text k v : string) :
  parse_kv_args text !! k = Some v → lower k = k.
Proof.
  unfold parse_kv_args.
  set (f := λ p : string, match partition "=" p with
                          | (k, true, v) => Some (lower (strip k), strip v)
                          | (_, false, _) => None
                          end).
  intros H. eapply (foldl_insert_keys (λ k, lower k = k) f (split_ws text) ∅).
  - intros x k0 v0. unfold f. destruct (partition "=" x) as [[k1 []] v1]; [|done].
    intros [= <- <-]. apply lower_idemp.
  - intros ? ?. by rewrite lookup_empty.
  - erewrite foldl_pointwise; [exact H|]. intros kv p. unfold f.
    by destruct (partition "=" p) as [[k1 []] v1].
Qed.

Lemma append_cons a s t : (String a s ++ t)%string = String a (s ++ t).
Proof. reflexivity. Qed.

Lemma append_snoc cur c w :
  ((cur ++ String c "") ++ w)%string = (cur ++ String c w)%string.
Proof. induction cur as [|a cur IH]; [done|]. by rewrite !append_cons, IH. Qed.

Lemma append_empty_r s : (s ++ "")%string = s.
Proof. induction s as [|a s IH]; [done|]. by rewrite append_cons, IH. Qed.

Lemma split_ws_word w cur :
  no_blank w = true →
  split_ws_from cur w = if String.eqb (cur ++ w) "" then [] else [(cur ++ w)%string].
Proof.
  revert cur. induction w as [|c w IH]; intros cur Hw; simpl.
  - by rewrite append_empty_r.
  - simpl in Hw. apply andb_true_iff in Hw as [Hc Hw]. apply negb_true_iff in Hc.
    rewrite Hc, IH by done. unfold snoc. by rewrite append_snoc.
Qed.

Lemma split_ws_append t w cur :
  no_blank w = true → w ≠ "" →
  split_ws_from cur (t ++ String " " w) = split_ws_from cur t ++ [w].
Proof.
  intros Hw Hne. revert cur. induction t as [|c t IH]; intros cur.
  - change ("" ++ String " " w)%string with (String " " w).
    cbn [split_ws_from]. change (is_space " ") with true. cbn match.
    rewrite (split_ws_word w "") by done. change ("" ++ w)%string with w.
    destruct (String.eqb_spec w ""); [done|]. by destruct (String.eqb cur "").
  - rewrite append_cons. cbn [split_ws_from]. destruct (is_space c).
    + destruct (String.eqb cur ""); by rewrite IH.
    + apply IH.
Qed.

Lemma partition_first k v cur :
  no_equals k = true →
  partition_from "=" cur (k ++ String "=" v) = ((cur ++ k)%string, true, v).
Proof.
  revert cur. induction k as [|c k IH]; intros cur Hk.
  - simpl. by rewrite append_empty_r.
  - simpl in Hk. apply andb_true_iff in Hk as [Hc Hk]. apply negb_true_iff in Hc.
    rewrite append_cons. cbn [partition_from]. rewrite Hc, IH by done.
    unfold snoc. by rewrite append_snoc.
Qed.

Lemma no_blank_app a b : no_blank a = true → no_blank b = true → no_blank (a ++ b) = true.
Proof.
  intros Ha Hb. induction a as [|c a IH]; [done|].
  rewrite append_cons. unfold no_blank in *. cbn [forall_chars] in *.
  apply andb_true_iff in Ha as [Hc Ha]. rewrite Hc. by apply IH.
Qed.

(** X13.  A last word [k=v] in ASCII, with no blank in [k] and [v] and no
    equals sign in [k], binds the lower-cased key to the value and overrides
    whatever the text before it gave for that key: of two values for one key
    the later wins, and the value keeps its case. *)
Theorem X13_parse_kv_args_append (text k v : string) :
  is_ascii k = true → is_ascii v = true →
  no_blank k = true → no_equals k = true → no_blank v = true →
  parse_kv_args (text ++ " " ++ k ++ "=" ++ v)
  = <[lower k := v]> (parse_kv_args text).
Proof.
  intros _ _ Hk He Hv. unfold parse_kv_args, split_ws.
  change (" " ++ k ++ "=" ++ v)%string with (String " " (k ++ String "=" v)).
  rewrite split_ws_append.
  - rewrite foldl_app. cbn [foldl]. unfold partition.
    rewrite partition_first by done. change ("" ++ k)%string with k.
    by rewrite (strip_word k Hk), (strip_word v Hv).
  - apply no_blank_app; [done|]. unfold no_blank in *. cbn [forall_chars]. by rewrite Hv.
  - by destruct k.
Qed.


(** ** The handlers *)

Lemma not_admin uid : uid ∉ ADMIN_USER_IDS E → is_admin E uid = false.
Proof. intros H. unfold is_admin. by rewrite bool_decide_eq_false_2. Qed.

Lemma yes_admin uid : uid ∈ ADMIN_USER_IDS E → is_admin E uid = true.
Proof. intros H. unfold is_admin. by rewrite bool_decide_eq_true_2. Qed.

Lemma handlers_denied u w uid text :
  effective_user u = Some uid → message u = Some text → uid ∉ ADMIN_USER_IDS E →
  start_cmd E u w = (Ok (), denied w) ∧ addsignal_cmd E u w = (Ok (), denied w) ∧
  list_cmd E str_of_float u w = (Ok (), denied w) ∧
  delete_cmd E u w = (Ok (), denied w).
Proof.
  intros Hu Hm Hadm. unfold start_cmd, addsignal_cmd, list_cmd, delete_cmd.
  by rewrite Hu, Hm, (not_admin uid Hadm).
Qed.

Lemma list_cmd_run u w uid text :
  effective_user u = Some uid → message u = Some text → uid ∈ ADMIN_USER_IDS E →
  list_cmd E str_of_float u w =
    (Ok (), replied match sorted_by_key (map_to_list (_signals (STORE w))).*2 with
                    | [] => "No signals yet."
                    | l => join newline (list_line str_of_float <$> l)
                    end w).
Proof.
  intros Hu Hm Hadm. unfold list_cmd. rewrite Hu, Hm, (yes_admin uid Hadm). cbn [negb].
  erewrite bind_ok by apply all_run. by destruct (sorted_by_key _).
Qed.

Lemma delete_cmd_run u w uid text :
  effective_user u = Some uid → message u = Some text → uid ∈ ADMIN_USER_IDS E →
  delete_cmd E u w =
    match split_ws text with
    | _ :: arg :: _ =>
        if isdigit arg then
          match int_of_str arg with
          | Ok sid =>
              if bool_decide (is_Some (_signals (STORE w) !! sid)) then
                (Ok (), replied "Deleted." (exec (delete sid) w))
              else (Ok (), replied "Not found." w)
          | Raise e => (Raise e, w)
          end
        else (Ok (), replied "Usage: /delete <id>" w)
    | _ => (Ok (), replied "Usage: /delete <id>" w)
    end.
Proof.
  intros Hu Hm Hadm. unfold delete_cmd. rewrite Hu, Hm, (yes_admin uid Hadm). cbn [negb].
  destruct (split_ws text) as [|c [|arg rest]]; [done|done|].
  destruct (isdigit arg); [|done]. cbn [negb].
  destruct (int_of_str arg) as [sid|e]; [|done].
  case_bool_decide as Hp.
  - erewrite bind_ok by by apply delete_run_present.
    unfold exec. by rewrite delete_run_present.
  - assert (_signals (STORE w) !! sid = None) as Hl.
    { destruct (_ !! sid) eqn:Hl; [|done]. destruct Hp. by eexists. }
    by erewrite bind_ok by by apply delete_run_absent.
Qed.

(** X14.  What [addsignal_cmd] makes of arguments in ASCII when it accepts
    them: symbol and side are upper-cased, with EUR/USD and LONG when absent;
    the side is LONG or SHORT; the note is taken as it is, empty when absent;
    an absent or empty entry is 0.0, any other is what [float] reads; an
    absent stop is [None], a present one, even an empty one, is what [float]
    reads. *)
Theorem X14_addsignal_defaults (args_text : string) (a : signal_args) :
  is_ascii args_text = true →
  let kv := parse_kv_args args_text in
  addsignal_args E kv = Ok a →
  arg_symbol a = upper (default "EUR/USD" (kv !! "symbol")) ∧
  arg_side a = upper (default "LONG" (kv !! "side")) ∧
  arg_side a ∈ ["LONG"; "SHORT"] ∧
  arg_note a = default "" (kv !! "note") ∧
  (kv !! "entry" = None ∨ kv !! "entry" = Some "" → arg_entry a = 0%float) ∧
  (∀ x, kv !! "entry" = Some x → x ≠ "" → float_of_str E x = Ok (arg_entry a)) ∧
  (kv !! "stop" = None → arg_stop a = None) ∧
  (∀ x, kv !! "stop" = Some x → ∃ f, float_of_str E x = Ok f ∧ arg_stop a = Some f).
Proof.
  intros _ kv. unfold addsignal_args.
  destruct (kv !! "entry") as [en|] eqn:Hen;
    [destruct (String.eqb_spec en "") as [->|Hne];
       [|destruct (float_of_str E en) eqn:Hf; [|done]]|];
    cbn [mbind result_bind];
    (destruct (floats E _); [|done]); cbn [mbind result_bind];
    (destruct (kv !! "stop") as [x|];
       [destruct (float_of_str E x) eqn:Hx; [|done]|]);
    cbn [mbind result_bind];
    (case_bool_decide; [|done]); intros [= <-]; cbn;
    split_and!; try done;
    try (intros y [= <-]; by eauto);
    try (intros y [= <-] ?; done);
    try (intros [?|[= ?]]; done).
Qed.

(** X15.  An accepted [/addsignal] in ASCII of an administrator, in a store
    whose ids are below the counter: the new record is filed under the counter's value
    with the message id that the channel returned, created at the import
    time, active, with no target hit; every record that was there is still
    there unchanged; the file holds the new store; the channel got exactly
    the card (posted before the message id was known), and the operator got
    the confirmation that names the id. *)
Theorem X15_addsignal_accepted (u : Update) (w : World) (uid : Z) (text : string)
    (a : signal_args) :
  effective_user u = Some uid → message u = Some text → is_ascii text = true →
  uid ∈ ADMIN_USER_IDS E →
  addsignal_args E (parse_kv_args (partition " " text).2) = Ok a →
  ids_below_next w →
  let w' := exec (addsignal_cmd E u) w in
  let sid := _next_id (STORE w) in
  let card := mkSignal sid (CHANNEL_ID E) None (arg_symbol a) (arg_side a) (arg_entry a)
                (arg_targets a) (arg_stop a) (arg_note a) (import_time E) true []
                "twelvedata" in
  _signals (STORE w') !! sid
    = Some (set_message_id (Some (telegram_message_id E (length (channel w)))) card) ∧
  (∀ k s, _signals (STORE w) !! k = Some s → _signals (STORE w') !! k = Some s) ∧
  size (_signals (STORE w')) = S (size (_signals (STORE w))) ∧
  _next_id (STORE w') = sid + 1 ∧
  disk w' = Some (save_doc (STORE w')) ∧
  channel w' = channel w ++ [SignalPublished card] ∧
  replies w' = replies w ++ [("Signal #" ++ str_of_int sid
                              ++ " created and posted to channel.")%string].
Proof.
  intros Hu Hm _ Hadm Ha Hb. cbn zeta. unfold exec.
  rewrite (addsignal_cmd_admin E u w uid text Hu Hm Hadm), Ha.
  cbn [snd STORE _signals _next_id id disk channel replies].
  assert (_signals (STORE w) !! _next_id (STORE w) = None) as Hfree.
  { destruct (_ !! _next_id (STORE w)) eqn:Hl; [|done].
    assert (_next_id (STORE w) < _next_id (STORE w)); [|lia]. apply Hb. by eexists. }
  split_and!; try done.
  - by rewrite lookup_insert_eq.
  - intros k s Hk. rewrite lookup_insert_ne; [done|]. intros <-. congruence.
  - by apply map_size_insert_None.
Qed.

(** X16.  Access control of the four handlers.  An update without a user is
    ignored: no reply, no change.  A user who is not an administrator gets
    "Access denied." from every handler and nothing else happens: the store,
    the file and the channel are as before. *)
Theorem X16_access_control (u : Update) (w : World) :
  (effective_user u = None →
     start_cmd E u w = (Ok (), w) ∧ addsignal_cmd E u w = (Ok (), w) ∧
     list_cmd E str_of_float u w = (Ok (), w) ∧ delete_cmd E u w = (Ok (), w)) ∧
  (∀ uid text,
     effective_user u = Some uid → message u = Some text → uid ∉ ADMIN_USER_IDS E →
     start_cmd E u w = (Ok (), denied w) ∧ addsignal_cmd E u w = (Ok (), denied w) ∧
     list_cmd E str_of_float u w = (Ok (), denied w) ∧
     delete_cmd E u w = (Ok (), denied w)).
Proof.
  split.
  - intros Hu. unfold start_cmd, addsignal_cmd, list_cmd, delete_cmd. by rewrite Hu.
  - intros uid text. apply handlers_denied.
Qed.

(** X17.  [/delete] of an administrator, on the text of a message in
    ASCII, never raises: the digits test guarantees that [int] succeeds, with
    a result that is not negative.
    Without a second word, or with one that is not all digits, the operator
    gets the usage line and nothing changes; for an absent id "Not found."
    and nothing changes; for a present id the record is removed, the counter
    stays, the file is rewritten, the channel is not told, and the operator
    gets "Deleted.". *)
Theorem X17_delete_cmd (u : Update) (w : World) (uid : Z) (text : string) :
  effective_user u = Some uid → message u = Some text → plain_text text →
  uid ∈ ADMIN_USER_IDS E →
  let w' := exec (delete_cmd E u) w in
  eval (delete_cmd E u) w = Ok () ∧
  match split_ws text with
  | _ :: arg :: _ =>
      if isdigit arg then
        ∃ sid, int_of_str arg = Ok sid ∧ 0 ≤ sid ∧
          match _signals (STORE w) !! sid with
          | Some _ =>
              _signals (STORE w') = base.delete sid (_signals (STORE w)) ∧
              _next_id (STORE w') = _next_id (STORE w) ∧
              disk w' = Some (save_doc (STORE w')) ∧
              channel w' = channel w ∧
              replies w' = replies w ++ ["Deleted."]
          | None => w' = replied "Not found." w
          end
      else w' = replied "Usage: /delete <id>" w
  | _ => w' = replied "Usage: /delete <id>" w
  end.
Proof.
  intros Hu Hm _ Hadm. cbn zeta. unfold eval, exec.
  rewrite (delete_cmd_run u w uid text Hu Hm Hadm).
  destruct (split_ws text) as [|c [|arg rest]]; [done|done|].
  destruct (isdigit arg) eqn:Hd; [|done].
  destruct (isdigit_int_of_str arg Hd) as (sid & -> & Hsid).
  destruct (_signals (STORE w) !! sid) as [s|] eqn:Hl.
  - rewrite bool_decide_eq_true_2 by by eexists. split; [done|].
    exists sid. split; [done|]. split; [done|]. rewrite Hl.
    unfold exec. rewrite delete_run_present by by rewrite Hl. done.
  - rewrite bool_decide_eq_false_2 by by intros [? ?]. split; [done|].
    exists sid. by rewrite Hl.
Qed.

(** X18.  [/list] only reads: whoever sends it, it never raises and leaves
    the store, the file, the channel and the log as they are.  To an
    administrator it answers "No signals yet." exactly when the store is
    empty, and otherwise one line for each signal, in the order of [all]. *)
Theorem X18_list_cmd_reads_only (u : Update) (w : World) :
  let w' := exec (list_cmd E str_of_float u) w in
  eval (list_cmd E str_of_float u) w = Ok () ∧
  STORE w' = STORE w ∧ disk w' = disk w ∧ channel w' = channel w ∧ log w' = log w ∧
  (∀ uid text,
     effective_user u = Some uid → message u = Some text → uid ∈ ADMIN_USER_IDS E →
     (_signals (STORE w) = ∅ → replies w' = replies w ++ ["No signals yet."]) ∧
     (_signals (STORE w) ≠ ∅ →
        ∃ l, eval all w = Ok l ∧
             replies w' = replies w ++ [join newline (list_line str_of_float <$> l)])).
Proof.
  cbn zeta. unfold eval, exec.
  destruct (effective_user u) as [uid|] eqn:Hu;
    [|unfold list_cmd; rewrite Hu; by split_and!].
  destruct (message u) as [text|] eqn:Hm;
    [|unfold list_cmd; rewrite Hu, Hm; by split_and!].
  destruct (decide (uid ∈ ADMIN_USER_IDS E)) as [Hadm|Hadm].
  2:{ destruct (handlers_denied u w uid text Hu Hm Hadm) as (_ & _ & -> & _).
      split_and!; try done. by intros uid' text' [= <-] _ Hin. }
  rewrite (list_cmd_run u w uid text Hu Hm Hadm). rewrite all_run.
  set (l := sorted_by_key _).
  assert (l = [] ↔ _signals (STORE w) = ∅) as Hl.
  { unfold l. split.
    - intros H. apply map_to_list_empty_iff. apply fmap_nil_inv with (f := snd).
      apply Permutation_nil_r. rewrite <-H. symmetry. apply sorted_by_key_perm.
    - intros ->. by rewrite map_to_list_empty. }
  split_and!; try done. intros uid' text' _ _ _. split.
  - intros H. apply Hl in H. by rewrite H.
  - intros H. exists l. split; [done|]. destruct l; [|done]. destruct H. by apply Hl.
Qed.

(** X19.  An update with a user and a message in ASCII gets exactly one
    reply from each of the four handlers, whatever its text and whoever sent
    it, and no handler raises on it. *)
Theorem X19_one_reply_per_command (u : Update) (w : World) (uid : Z) (text : string) :
  effective_user u = Some uid → message u = Some text → plain_text text →
  ∀ h, h ∈ [start_cmd E u; addsignal_cmd E u; list_cmd E str_of_float u; delete_cmd E u] →
    eval h w = Ok () ∧ length (replies (exec h w)) = S (length (replies w)).
Proof.
  intros Hu Hm _ h Hh.
  assert (∀ t, length (replies w ++ [t]) = S (length (replies w))) as Hlen.
  { intros t. rewrite length_app. simpl. lia. }
  destruct (decide (uid ∈ ADMIN_USER_IDS E)) as [Hadm|Hadm].
  2:{ destruct (handlers_denied u w uid text Hu Hm Hadm) as (H1 & H2 & H3 & H4).
      unfold eval, exec.
      repeat (apply elem_of_cons in Hh as [->|Hh]); [..|by apply elem_of_nil in Hh];
        rewrite ?H1, ?H2, ?H3, ?H4; split; try done; apply Hlen. }
  unfold eval, exec.
  repeat (apply elem_of_cons in Hh as [->|Hh]); [..|by apply elem_of_nil in Hh].
  - unfold start_cmd. rewrite Hu, Hm, (yes_admin _ Hadm). split; [done|apply Hlen].
  - rewrite (addsignal_cmd_admin E u w uid text Hu Hm Hadm).
    destruct (addsignal_args E _); (split; [done|apply Hlen]).
  - rewrite (list_cmd_run u w uid text Hu Hm Hadm). split; [done|apply Hlen].
  - rewrite (delete_cmd_run u w uid text Hu Hm Hadm).
    destruct (split_ws text) as [|c [|arg rest]]; [by split; [|apply Hlen]..|].
    destruct (isdigit arg) eqn:Hd; [|by split; [|apply Hlen]].
    destruct (isdigit_int_of_str arg Hd) as (sid & -> & _).
    case_bool_decide; (split; [done|]); cbn [snd replied replies]; [|apply Hlen].
    rewrite length_app. simpl. unfold exec.
    destruct (_signals (STORE w) !! sid) eqn:Hl.
    + rewrite delete_run_present by by rewrite Hl. simpl. apply Nat.add_1_r.
    + rewrite delete_run_absent by done. simpl. apply Nat.add_1_r.
Qed.

(** ** The process as a whole *)

Lemma history_refl w : history_rel w w.
Proof.
  split; [lia|]. split; [done|]. intros sid s H. right. exists s.
  split; [done|]. split; [apply same_static_refl|]. done.
Qed.

Lemma history_trans w1 w2 w3 :
  ids_below_next w1 → history_rel w1 w2 → history_rel w2 w3 → history_rel w1 w3.
Proof.
  intros Hb (Hn1 & Hf1 & H1) (Hn2 & Hf2 & H2). split; [lia|]. split.
  - intros sid Hlt Hnone. apply Hf2; [lia|]. by apply Hf1.
  - intros sid s Hs. destruct (H1 sid s Hs) as [Hnone|(s2 & Hs2 & Hst & Hpre & Hin)].
    + left. apply Hf2; [|done]. assert (sid < _next_id (STORE w1)); [|lia].
      apply Hb. by eexists.
    + destruct (H2 sid s2 Hs2) as [Hnone|(s3 & Hs3 & Hst3 & Hpre3 & Hin3)]; [by left|].
      right. exists s3. split; [done|]. split; [by eapply same_static_trans|].
      split; [by etrans|]. intros Ha. rewrite (Hin Ha) in *. by apply Hin3.
Qed.

(** Steps that leave the store and the file as they are. *)
Lemma quiet_sound w w' :
  STORE w' = STORE w → disk w' = disk w → sound w → sound w' ∧ history_rel w w'.
Proof.
  intros Hs Hd (Hwf & Hb & Hp). split.
  - split; [|split].
    + intros k s. rewrite Hs. apply Hwf.
    + intros k. rewrite Hs. apply Hb.
    + unfold persisted. by rewrite Hs, Hd.
  - unfold history_rel. rewrite Hs. apply (history_refl w).
Qed.

Lemma inserted_sound w w' s :
  id s = _next_id (STORE w) →
  STORE w' = mkStore (<[id s := s]> (_signals (STORE w))) (_next_id (STORE w) + 1) →
  disk w' = Some (save_doc (STORE w')) →
  sound w → sound w' ∧ history_rel w w'.
Proof.
  intros Hid Hs Hd (Hwf & Hb & Hp).
  assert (∀ k, is_Some (_signals (STORE w) !! k) → k ≠ id s) as Hne.
  { intros k Hk ->. specialize (Hb _ Hk). lia. }
  split; [split; [|split]|].
  - intros k t. rewrite Hs. simpl. by apply wf_insert.
  - intros k. rewrite Hs. simpl. intros Hk.
    destruct (decide (k = id s)) as [->|Hk']; [lia|].
    rewrite lookup_insert_ne in Hk by done. specialize (Hb _ Hk). lia.
  - by left.
  - unfold history_rel. rewrite Hs. split; [simpl; lia|]. split; simpl.
    + intros sid Hlt Hnone. rewrite lookup_insert_ne by lia. done.
    + intros sid t Ht. right. exists t.
      rewrite lookup_insert_ne by (symmetry; apply Hne; by eexists).
      split; [done|]. split; [apply same_static_refl|]. done.
Qed.

Lemma deleted_sound w w' sid :
  STORE w' = mkStore (base.delete sid (_signals (STORE w))) (_next_id (STORE w)) →
  disk w' = Some (save_doc (STORE w')) →
  sound w → sound w' ∧ history_rel w w'.
Proof.
  intros Hs Hd (Hwf & Hb & Hp). split; [split; [|split]|].
  - intros k t. rewrite Hs. simpl. by apply wf_delete.
  - intros k. rewrite Hs. simpl. intros [t Hk]. apply lookup_delete_Some in Hk as [_ Hk].
    apply Hb. by eexists.
  - by left.
  - unfold history_rel. rewrite Hs. split; [simpl; lia|]. split; simpl.
    + intros k _ Hnone. apply lookup_delete_None. by right.
    + intros k t Ht. destruct (decide (k = sid)) as [->|Hk].
      * left. apply lookup_delete_eq.
      * right. exists t. rewrite lookup_delete_ne by done.
        split; [done|]. split; [apply same_static_refl|]. done.
Qed.

Lemma commit_persisted s evs w : persisted w → persisted (commit E s evs w).
Proof. destruct evs; [done|]. intros _. by left. Qed.

Lemma monitor_signal_persisted s w :
  persisted w → persisted (exec (monitor_signal E s) w).
Proof.
  intros Hp. unfold exec. rewrite monitor_signal_run.
  destruct (active s); cbn [negb snd]; [|done].
  destruct (eval _ w); cbn [snd]; [|done]. by apply commit_persisted.
Qed.

Lemma for_each_persisted l w :
  persisted w → persisted (exec (for_each (monitor_signal E) l) w).
Proof.
  revert w. induction l as [|s l IH]; intros w Hp; [done|].
  unfold exec. rewrite for_each_cons.
  pose proof (monitor_signal_persisted s w Hp) as H. unfold exec in H.
  destruct (monitor_signal E s w) as [[[]|e] w1]; cbn [snd] in *; [|done].
  by apply IH.
Qed.

Lemma monitor_cycle_persisted w :
  persisted w → persisted (exec (monitor_cycle E) w).
Proof.
  intros Hp. unfold exec. rewrite monitor_cycle_run. cbn zeta.
  pose proof (for_each_persisted (sorted_by_key (map_to_list (_signals (STORE w))).*2) w Hp)
    as H. unfold exec in H.
  by destruct (for_each _ _ w) as [[[]|e] w'].
Qed.

Lemma world_rel_history w w' : world_rel w w' → history_rel w w'.
Proof.
  intros (_ & Hn & _ & H). split; [lia|]. split.
  - intros sid _ Hnone. specialize (H sid). rewrite Hnone in H. apply H.
  - intros sid s Hs. specialize (H sid). rewrite Hs in H.
    destruct H as (s' & Hs' & Hrel). right. exists s'. split; [done|].
    split; [apply Hrel|]. split.
    + rewrite (sr_hits _ _ _ _ Hrel). by apply prefix_app_r.
    + intros Ha. by destruct (sr_inactive _ _ _ _ Hrel Ha).
Qed.

Lemma world_rel_below w w' : world_rel w w' → ids_below_next w → ids_below_next w'.
Proof.
  intros (_ & Hn & _ & H) Hb k [s' Hk]. rewrite Hn. apply Hb. specialize (H k).
  destruct (_signals (STORE w) !! k); [by eexists|]. destruct H as [H _]. congruence.
Qed.

Lemma cycle_sound w :
  sound w → sound (exec (monitor_cycle E) w) ∧ history_rel w (exec (monitor_cycle E) w).
Proof.
  intros (Hwf & Hb & Hp). pose proof (monitor_cycle_rel E w Hwf) as Hrel.
  split; [split; [|split]|].
  - by eapply world_rel_wf.
  - by eapply world_rel_below.
  - by apply monitor_cycle_persisted.
  - by apply world_rel_history.
Qed.

Lemma dispatch_run h w :
  dispatch h w = match h w with
                 | (Ok _, w') => (Ok (), w')
                 | (Raise e, w') => (Ok (), logged e w')
                 end.
Proof. unfold dispatch, try_except. by destruct (h w) as [[[]|e] w']. Qed.

Lemma start_cmd_quiet u w :
  STORE (exec (dispatch (start_cmd E u)) w) = STORE w ∧
  disk (exec (dispatch (start_cmd E u)) w) = disk w.
Proof.
  unfold exec. rewrite dispatch_run. unfold start_cmd.
  destruct (effective_user u); [|done]. destruct (message u); [|done].
  by destruct (is_admin E z).
Qed.

Lemma list_cmd_quiet u w :
  STORE (exec (dispatch (list_cmd E str_of_float u)) w) = STORE w ∧
  disk (exec (dispatch (list_cmd E str_of_float u)) w) = disk w.
Proof.
  unfold exec. rewrite dispatch_run. unfold list_cmd.
  destruct (effective_user u); [|done]. destruct (message u); [|done].
  destruct (is_admin E z); cbn [negb]; [|done].
  erewrite bind_ok by apply all_run. by destruct (sorted_by_key _).
Qed.

Lemma addsignal_step_sound u w :
  sound w →
  sound (exec (dispatch (addsignal_cmd E u)) w) ∧
  history_rel w (exec (dispatch (addsignal_cmd E u)) w).
Proof.
  intros Hs. unfold exec. rewrite dispatch_run.
  destruct (effective_user u) as [uid|] eqn:Hu;
    [|unfold addsignal_cmd; rewrite Hu; by apply quiet_sound].
  destruct (message u) as [text|] eqn:Hm;
    [|unfold addsignal_cmd; rewrite Hu, Hm; by apply quiet_sound].
  destruct (decide (uid ∈ ADMIN_USER_IDS E)) as [Hadm|Hadm].
  - rewrite (addsignal_cmd_admin E u w uid text Hu Hm Hadm).
    destruct (addsignal_args E _) as [a|e]; [|by apply quiet_sound].
    cbn [snd].
    match goal with |- context [<[id ?s := ?s']> _] =>
      apply (inserted_sound w _ s'); [done|done|done|done] end.
  - unfold addsignal_cmd. rewrite Hu, Hm, (not_admin uid Hadm). by apply quiet_sound.
Qed.

Lemma delete_step_sound u w :
  sound w →
  sound (exec (dispatch (delete_cmd E u)) w) ∧
  history_rel w (exec (dispatch (delete_cmd E u)) w).
Proof.
  intros Hs. unfold exec. rewrite dispatch_run.
  destruct (effective_user u) as [uid|] eqn:Hu;
    [|unfold delete_cmd; rewrite Hu; by apply quiet_sound].
  destruct (message u) as [text|] eqn:Hm;
    [|unfold delete_cmd; rewrite Hu, Hm; by apply quiet_sound].
  destruct (decide (uid ∈ ADMIN_USER_IDS E)) as [Hadm|Hadm].
  - rewrite (delete_cmd_run u w uid text Hu Hm Hadm).
    destruct (split_ws text) as [|c [|arg rest]]; [by apply quiet_sound..|].
    destruct (isdigit arg); [|by apply quiet_sound].
    destruct (int_of_str arg) as [sid|e]; [|by apply quiet_sound].
    case_bool_decide as Hp; [|by apply quiet_sound].
    cbn [snd]. apply (deleted_sound w _ sid); [| |done];
      unfold exec; by rewrite delete_run_present.
  - unfold delete_cmd. rewrite Hu, Hm, (not_admin uid Hadm). by apply quiet_sound.
Qed.

Lemma run_step_ok st w : eval (run_step E str_of_float st) w = Ok ().
Proof.
  destruct st; unfold eval; cbn [run_step]; [apply monitor_cycle_ok|..];
    rewrite dispatch_run;
    match goal with |- context [match ?h with _ => _ end] => by destruct h as [[[]|e] w'] end.
Qed.

Lemma run_step_sound st w :
  sound w →
  sound (exec (run_step E str_of_float st) w) ∧
  history_rel w (exec (run_step E str_of_float st) w).
Proof.
  intros Hs. destruct st; cbn [run_step].
  - by apply cycle_sound.
  - destruct (start_cmd_quiet u w). by apply quiet_sound.
  - by apply addsignal_step_sound.
  - destruct (list_cmd_quiet u w). by apply quiet_sound.
  - by apply delete_step_sound.
Qed.

Lemma run_steps_cons st sts w :
  run_steps E str_of_float (st :: sts) w
  = run_steps E str_of_float sts (exec (run_step E str_of_float st) w).
Proof.
  unfold run_steps. rewrite for_each_cons. unfold exec.
  pose proof (run_step_ok st w) as H. unfold eval in H.
  destruct (run_step E str_of_float st w) as [r w1]. simpl in H. by subst r.
Qed.

Lemma run_steps_sound sts w :
  sound w →
  eval (run_steps E str_of_float sts) w = Ok () ∧
  sound (exec (run_steps E str_of_float sts) w) ∧
  history_rel w (exec (run_steps E str_of_float sts) w).
Proof.
  revert w. induction sts as [|st sts IH]; intros w Hs.
  - split; [done|]. split; [done|]. apply history_refl.
  - unfold eval, exec. rewrite run_steps_cons.
    destruct (run_step_sound st w Hs) as [Hs1 Hh1].
    destruct (IH _ Hs1) as (Hok & Hs2 & Hh2).
    split; [done|]. split; [done|].
    eapply history_trans; [apply Hs|exact Hh1|exact Hh2].
Qed.

(** X20.  From a sound world (every record filed under its own id, every
    id below the counter, the file in step with the store) any sequence of
    monitor cycles and commands runs to its end without an exception
    escaping, and at that point a restart of the process reads back from the
    file exactly the store in memory: nothing the bot did is lost, whatever
    the prices, the commands and their senders were. *)
Theorem X20_restart_after_any_run (E' : Env) (sts : list step) (w : World) :
  sound w →
  let w' := exec (run_steps E str_of_float sts) w in
  eval (run_steps E str_of_float sts) w = Ok () ∧
  SignalStore_init E' (disk w') = Ok (STORE w') ∧
  store_wf w' ∧ ids_below_next w'.
Proof.
  intros Hs. destruct (run_steps_sound sts w Hs) as (Hok & (Hwf & Hb & Hp) & _).
  cbn zeta. split; [done|]. split; [by apply persisted_restart|done].
Qed.



End More.

Lemma sound_fresh : sound fresh_world.
Proof.
  split; [apply store_wf_fresh|]. split; [|by right].
  intros k [s H]. simpl in H. by rewrite lookup_empty in H.
Qed.


(** ** Instances *)

Lemma ids_below_next_checked w :
  map_Forall (λ k _, k < _next_id (STORE w)) (_signals (STORE w)) → ids_below_next w.
Proof. intros H k [s Hk]. exact (H k s Hk). Defined.

Lemma stored_world_sound : sound stored_world.
Proof.
  split; [|split].
  - apply (bool_decide_unpack
             (map_Forall (λ k s, id s = k) (_signals (STORE stored_world)))).
    vm_compute. exact I.
  - apply ids_below_next_checked. apply (bool_decide_unpack _). vm_compute. exact I.
  - left. vm_compute. reflexivity.
Defined.

Lemma stranger_no_admin t0 answers : 42 ∉ ADMIN_USER_IDS (sample_env_at t0 answers).
Proof. simpl. intros H%elem_of_singleton. discriminate. Defined.

(** X2 on a dict with a key [color]. *)
Lemma X2_witness :
  from_dict (sample_env [])
    (JObj [("id", JInt 1); ("chat_id", JInt 5); ("color", JStr "red")])
  = Raise TypeError.
Proof.
  destruct (X2_from_dict_errors_and_defaults (sample_env [])) as (H & _).
  apply (H _ "color" (JStr "red")).
  - apply list_elem_of_further, list_elem_of_further, list_elem_of_here.
  - apply (bool_decide_unpack _). vm_compute. exact I.
Defined.


(** X4 on the empty document. *)
Lemma X4_witness : SignalStore_init (sample_env []) (Some (JObj [])) = Ok (mkStore ∅ 1).
Proof.
  destruct (X4_load_defaults (sample_env [])) as (_ & H & _).
  apply H; reflexivity.
Defined.

(** X7 on two additions from the fresh world. *)
Lemma X7_witness :
  SignalStore_init (sample_env []) (disk stored_world) = Ok (STORE stored_world).
Proof.
  apply (X7_store_operations_persist (sample_env [])
           [OpAdd long_signal; OpAdd short_signal] fresh_world).
  right. split; reflexivity.
Defined.

(** X8: status 503 with a payload that has a price. *)
Lemma X8_witness :
  eval (td_get_price (sample_env [Response 503 (Some (JObj [("price", JStr "1.11")]))])
          "EUR/USD") fresh_world
  = Raise ClientError.
Proof.
  destruct (X8_td_get_price
              (sample_env [Response 503 (Some (JObj [("price", JStr "1.11")]))])
              "EUR/USD" fresh_world) as (_ & _ & H & _).
  apply (H 503 (Some (JObj [("price", JStr "1.11")]))); [reflexivity|lia].
Defined.

(** X10 on two cycles in which the stop of the second signal is hit. *)
Lemma X10_witness :
  let E := sample_env [quote_of "1.11"; quote_of "1.21"; quote_of "1.13"] in
  eval (monitor_prices E 2) sample_world = Ok () ∧
  dom (_signals (STORE (exec (monitor_prices E 2) sample_world)))
  = dom (_signals (STORE sample_world)).
Proof.
  intros E.
  destruct (X10_monitor_leaves_the_rest E 2 sample_world sample_world_wf)
    as (H1 & _ & _ & H2 & _).
  split; [exact H1|exact H2].
Defined.

(** X11 on a cycle whose second request fails, and on a feed that gives
    the same two answers and others elsewhere. *)
Lemma X11_witness :
  let E := sample_env [quote_of "1.11"; NoResponse] in
  let feed := λ (n : nat) (sym : string),
    if Nat.eqb n 0 && String.eqb sym "EUR/USD" then quote_of "1.11"
    else if Nat.eqb n 1 && String.eqb sym "GBP/USD" then NoResponse
    else quote_of "1.25" in
  (fetches (exec (monitor_cycle E) sample_world) ≤ 2)%nat ∧
  monitor_cycle (with_feed feed E) sample_world = monitor_cycle E sample_world.
Proof.
  intros E feed.
  destruct (X11_cycle_requests_and_log E sample_world [long_signal; short_signal])
    as (H & _ & _ & _ & H5).
  - vm_compute. reflexivity.
  - split; [exact H|]. apply H5. intros i s Hi.
    destruct i as [|[|i]]; [| |done]; injection Hi as <-; reflexivity.
Defined.

(** X12 on a key written with a capital. *)
Lemma X12_witness : lower "side" = "side".
Proof.
  apply (X12_parse_kv_args_keys "Side=long" "side" "long").
  vm_compute. reflexivity.
Defined.

(** X13: a second value for the side. *)
Lemma X13_witness :
  parse_kv_args "symbol=EUR/USD side=long SIDE=short"
  = <["side" := "short"]> (parse_kv_args "symbol=EUR/USD side=long").
Proof.
  exact (X13_parse_kv_args_append "symbol=EUR/USD side=long" "SIDE" "short"
           eq_refl eq_refl eq_refl eq_refl eq_refl).
Defined.

(** X14 on arguments without side, entry and stop. *)
Lemma X14_witness :
  let kv := parse_kv_args "symbol=eur/usd targets=1.11" in
  upper (default "EUR/USD" (kv !! "symbol")) = "EUR/USD" ∧
  upper (default "LONG" (kv !! "side")) = "LONG".
Proof.
  intros kv.
  destruct (X14_addsignal_defaults (sample_env []) "symbol=eur/usd targets=1.11"
              (mkArgs "EUR/USD" "LONG" 0 [1.11]%float None "")) as (H1 & H2 & _).
  - reflexivity.
  - vm_compute. reflexivity.
  - split; [symmetry; exact H1|symmetry; exact H2].
Defined.

(** X15 on the first signal of a process. *)
Lemma X15_witness :
  let E := sample_env [] in
  let w' := exec (addsignal_cmd E (admin_says "/addsignal symbol=eur/usd targets=1.11"))
              fresh_world in
  _next_id (STORE w') = 2 ∧
  replies w' = ["Signal #1 created and posted to channel."].
Proof.
  intros E w'.
  destruct (X15_addsignal_accepted E
              (admin_says "/addsignal symbol=eur/usd targets=1.11") fresh_world
              8121424156 "/addsignal symbol=eur/usd targets=1.11"
              (mkArgs "EUR/USD" "LONG" 0 [1.11]%float None ""))
    as (_ & _ & _ & H1 & _ & _ & H2).
  - reflexivity.
  - reflexivity.
  - reflexivity.
  - apply sample_admin.
  - vm_compute. reflexivity.
  - intros k [s Hk]. simpl in Hk. by rewrite lookup_empty in Hk.
  - split; [exact H1|exact H2].
Defined.

(** X16: somebody else asks for a deletion. *)
Lemma X16_witness :
  delete_cmd (sample_env []) (stranger_says "/delete 1") sample_world
  = (Ok (), denied sample_world).
Proof.
  destruct (X16_access_control (sample_env []) sample_str_of_float
              (stranger_says "/delete 1") sample_world) as (_ & H).
  destruct (H 42 "/delete 1") as (_ & _ & _ & H4).
  - reflexivity.
  - reflexivity.
  - apply stranger_no_admin.
  - exact H4.
Defined.

(** X17: the administrator deletes the first signal. *)
Lemma X17_witness :
  eval (delete_cmd (sample_env []) (admin_says "/delete 1")) sample_world = Ok ().
Proof.
  destruct (X17_delete_cmd (sample_env []) (admin_says "/delete 1") sample_world
              8121424156 "/delete 1") as (H & _).
  - reflexivity.
  - reflexivity.
  - split; [reflexivity|vm_compute; discriminate].
  - apply sample_admin.
  - exact H.
Defined.

(** X18: the list of an empty store. *)
Lemma X18_witness :
  replies (exec (list_cmd (sample_env []) sample_str_of_float (admin_says "/list"))
             fresh_world)
  = ["No signals yet."].
Proof.
  destruct (X18_list_cmd_reads_only (sample_env []) sample_str_of_float
              (admin_says "/list") fresh_world) as (_ & _ & _ & _ & _ & H).
  destruct (H 8121424156 "/list") as (H1 & _).
  - reflexivity.
  - reflexivity.
  - apply sample_admin.
  - apply H1. reflexivity.
Defined.

(** X19: a deletion whose argument is no number. *)
Lemma X19_witness :
  let h := delete_cmd (sample_env []) (admin_says "/delete first") in
  eval h sample_world = Ok () ∧ length (replies (exec h sample_world)) = 1%nat.
Proof.
  intros h.
  apply (X19_one_reply_per_command (sample_env []) sample_str_of_float
           (admin_says "/delete first") sample_world 8121424156 "/delete first").
  - reflexivity.
  - reflexivity.
  - split; [reflexivity|vm_compute; discriminate].
  - do 3 apply list_elem_of_further. apply list_elem_of_here.
Defined.

(** X20: a run with cycles, an addition, a deletion and a refused command. *)
Lemma X20_witness :
  let E := sample_env [quote_of "1.11"; quote_of "1.21"; quote_of "1.13"] in
  let w' := exec (run_steps E sample_str_of_float
                    [Cycle; AddSignalCmd (admin_says "/addsignal side=short targets=1.09");
                     DeleteCmd (admin_says "/delete 1"); ListCmd (stranger_says "/list");
                     Cycle]) stored_world in
  SignalStore_init (sample_env []) (disk w') = Ok (STORE w').
Proof.
  intros E w'.
  destruct (X20_restart_after_any_run E sample_str_of_float (sample_env [])
              [Cycle; AddSignalCmd (admin_says "/addsignal side=short targets=1.09");
               DeleteCmd (admin_says "/delete 1"); ListCmd (stranger_says "/list");
               Cycle] stored_world stored_world_sound) as (_ & H & _).
  exact H.
Defined.


